(** * ValidationService: reconciling supplied files against Solidity metadata

    A shallow embedding of [services/validation/src/ValidationService.ts].

    Modelling conventions.
    - A JavaScript string is a sequence of code units; the model covers code
      units below 256, one [ascii] each.
    - [undefined] and [null] are [None] where the code only tests truthiness.
    - [PathContent] objects are mutable and shared between [parsedFiles], the
      [hash2file] map and [foundSources]: they live in a heap (a list indexed
      by object reference) and the maps hold references.
    - The plain objects used as dictionaries ([foundSources],
      [missingSources], [invalidSources]) are their own properties together
      with their prototype: an assignment to the name [__proto__] reaches the
      setter of [Object.prototype] and creates no property. The [Map]
      [hash2file] is a finite map whose keys are strings or [null].
    - A call that throws, or a promise that is rejected, is an explicit
      outcome. [fetch] (node-fetch) may be rejected instead of producing a
      response, and so may [res.text()].
    - The library functions [Web3.utils.keccak256], [fetch], [JSON.parse],
      [Buffer.toString], [Path.join], [Path.resolve], [Date.now] and AdmZip
      are parameters of the development; the file system is what paths lead
      to. *)

From Stdlib Require Import ZArith Ascii String.
From stdpp Require Import gmap strings list pretty.

Local Open Scope string_scope.
Local Open Scope list_scope.
Local Set Warnings "-register-all".

(** ** JavaScript string primitives used by the service *)

Module JsString.

(** [s.slice(n)] for [0 <= n]. *)
Fixpoint slice (n : nat) (s : string) : string :=
  match n, s with
  | O, _ => s
  | S n', String _ r => slice n' r
  | S _, EmptyString => EmptyString
  end.

(** [s.startsWith(p)]. *)
Definition startsWith (s p : string) : bool := String.prefix p s.

(** WhiteSpace and LineTerminator code units below 256:
    TAB, LF, VT, FF, CR, SP and NBSP. *)
Definition is_white_space (c : ascii) : bool :=
  let n := nat_of_ascii c in
  ((9 <=? n)%nat && (n <=? 13)%nat) || (n =? 32)%nat || (n =? 160)%nat.

(** The characters the regular-expression atom [.] refuses (below 256). *)
Definition is_line_terminator (c : ascii) : bool :=
  let n := nat_of_ascii c in (n =? 10)%nat || (n =? 13)%nat.

Fixpoint trimStart (s : string) : string :=
  match s with
  | EmptyString => EmptyString
  | String c r => if is_white_space c then trimStart r else s
  end.

Fixpoint trimEnd (s : string) : string :=
  match s with
  | EmptyString => EmptyString
  | String c r =>
      match trimEnd r with
      | EmptyString => if is_white_space c then EmptyString else String c EmptyString
      | r' => String c r'
      end
  end.

(** [s.trim()]. *)
Definition trim (s : string) : string := trimEnd (trimStart s).

(** [s.replace(pat, rep)] for a string pattern: the first occurrence only. *)
Fixpoint replace (pat rep s : string) : string :=
  if String.prefix pat s then rep +:+ slice (String.length pat) s
  else match s with
       | EmptyString => EmptyString
       | String c r => String c (replace pat rep r)
       end.

(** The remainder of [s] after the literal [p], when [s] starts with it. *)
Definition after (p s : string) : option string :=
  if String.prefix p s then Some (slice (String.length p) s) else None.

(** Single quotes turned into double quotes, to write JSON texts legibly. *)
Fixpoint dq (s : string) : string :=
  match s with
  | EmptyString => EmptyString
  | String c r =>
      String (if Ascii.eqb c "'"%char then ascii_of_nat 34 else c) (dq r)
  end.

End JsString.
Import JsString.

(** ** Keccak-256

    The digest itself, to run the service on concrete inputs: Keccak-256 of a
    sequence of bytes, and of the UTF-8 bytes of a string, printed as 0x and
    64 lowercase hexadecimal digits. The service takes its hash function as
    a parameter. *)

Module Keccak.
Local Open Scope Z_scope.
Local Open Scope list_scope.

Definition mask64 : Z := 2 ^ 64 - 1.

Definition rotl64 (x : Z) (n : Z) : Z :=
  Z.lor (Z.land (Z.shiftl x n) mask64) (Z.shiftr x (64 - n)).

Definition RC : list Z :=
  [ 0x0000000000000001; 0x0000000000008082; 0x800000000000808A;
    0x8000000080008000; 0x000000000000808B; 0x0000000080000001;
    0x8000000080008081; 0x8000000000008009; 0x000000000000008A;
    0x0000000000000088; 0x0000000080008009; 0x000000008000000A;
    0x000000008000808B; 0x800000000000008B; 0x8000000000008089;
    0x8000000000008003; 0x8000000000008002; 0x8000000000000080;
    0x000000000000800A; 0x800000008000000A; 0x8000000080008081;
    0x8000000000008080; 0x0000000080000001; 0x8000000080008008 ].

(** Rotation offsets; lane [(x, y)] is at index [x + 5 * y]. *)
Definition ROT : list Z :=
  [ 0; 1; 62; 28; 27;
    36; 44; 6; 55; 20;
    3; 10; 43; 25; 39;
    41; 45; 15; 21; 8;
    18; 2; 61; 56; 14 ].

Definition lane (a : list Z) (x y : nat) : Z :=
  nth (x mod 5 + 5 * (y mod 5))%nat a 0.

Definition lanes (f : nat -> nat -> Z) : list Z :=
  List.map (fun i => f (i mod 5)%nat (i / 5)%nat) (seq 0 25).

Definition theta (a : list Z) : list Z :=
  let c x := Z.lxor (lane a x 0) (Z.lxor (lane a x 1) (Z.lxor (lane a x 2)
               (Z.lxor (lane a x 3) (lane a x 4)))) in
  let d x := Z.lxor (c (x + 4)%nat) (rotl64 (c (x + 1)%nat) 1) in
  lanes (fun x y => Z.lxor (lane a x y) (d x)).

Definition rho_pi (a : list Z) : list Z :=
  lanes (fun x y =>
           let x0 := ((x + 3 * y) mod 5)%nat in
           rotl64 (lane a x0 x) (nth (x0 + 5 * x)%nat ROT 0)).

Definition chi (b : list Z) : list Z :=
  lanes (fun x y =>
           Z.lxor (lane b x y)
             (Z.land (Z.lxor (lane b (x + 1) y) mask64) (lane b (x + 2) y))).

Definition iota (rc : Z) (a : list Z) : list Z :=
  match a with
  | [] => []
  | a0 :: rest => Z.lxor a0 rc :: rest
  end.

Definition round (a : list Z) (rc : Z) : list Z :=
  iota rc (chi (rho_pi (theta a))).

Definition keccak_f (a : list Z) : list Z := fold_left round RC a.

(** A lane from its bytes, least significant first. *)
Fixpoint le_lane (bs : list Z) : Z :=
  match bs with
  | [] => 0
  | b :: rest => b + 256 * le_lane rest
  end.

Fixpoint chunks (n : nat) (fuel : nat) (bs : list Z) : list (list Z) :=
  match fuel with
  | O => []
  | S fuel' =>
      match bs with
      | [] => []
      | _ => firstn n bs :: chunks n fuel' (skipn n bs)
      end
  end.

Definition RATE : nat := 136.

(** The padding of Keccak-256: [0x01], zeros, [0x80], up to the rate. *)
Definition pad (bs : list Z) : list Z :=
  let q := (RATE - (List.length bs mod RATE))%nat in
  if (q =? 1)%nat then (bs ++ [0x81])%list
  else (bs ++ [0x01] ++ repeat 0 (q - 2) ++ [0x80])%list.

Definition absorb (a : list Z) (block : list Z) : list Z :=
  let ls := List.map le_lane (chunks 8 17 block) in
  keccak_f (List.map (fun '(x, y) => Z.lxor x y) (combine a (ls ++ repeat 0 8)%list)).

Definition digest (bs : list Z) : list Z :=
  let p := pad bs in
  let a := fold_left absorb (chunks RATE (List.length p) p) (repeat 0 25) in
  List.flat_map (fun l => List.map (fun i => Z.land (Z.shiftr l (8 * Z.of_nat i)) 255) (seq 0 8))
           (firstn 4 a).

Definition hex_digit (n : Z) : ascii :=
  ascii_of_nat (Z.to_nat (if n <? 10 then 48 + n else 87 + n)).

Fixpoint hex (bs : list Z) : string :=
  match bs with
  | [] => EmptyString
  | b :: rest => String (hex_digit (b / 16)) (String (hex_digit (b mod 16)) (hex rest))
  end.

(** UTF-8 of code units below 256. *)
Fixpoint utf8 (s : string) : list Z :=
  match s with
  | EmptyString => []
  | String c r =>
      let n := Z.of_nat (nat_of_ascii c) in
      if n <? 128 then n :: utf8 r
      else (192 + n / 64) :: (128 + n mod 64) :: utf8 r
  end.

Definition keccak256 (s : string) : string :=
  String "0" (String "x" (hex (digest (utf8 s)))).

End Keccak.

(** ** [Web3.utils.keccak256] on sample inputs

    The function of web3-utils on a string: a text that is [0x] followed by
    hexadecimal digits only is hashed as the bytes the digits denote, any
    other text as its UTF-8 bytes, and the result is [null] when it is the
    hash of no bytes. (For a text that starts with [0x] and is not
    hexadecimal throughout, the releases of the library differ; no sample is
    such a text.) *)

Module Web3.
Local Open Scope Z_scope.
Local Open Scope list_scope.

Definition is_hex_digit (c : ascii) : bool :=
  let n := Z.of_nat (nat_of_ascii c) in
  ((48 <=? n) && (n <=? 57)) || ((65 <=? n) && (n <=? 70))
  || ((97 <=? n) && (n <=? 102)).

Definition hex_value (c : ascii) : Z :=
  let n := Z.of_nat (nat_of_ascii c) in
  if n <=? 57 then n - 48 else if n <=? 70 then n - 55 else n - 87.

Fixpoint all_hex (s : string) : bool :=
  match s with
  | EmptyString => true
  | String c r => is_hex_digit c && all_hex r
  end.

(** [isHexStrict(value) && /^0x/i.test(value)]: the digits after the prefix
    when the test succeeds. *)
Definition hex_digits (value : string) : option string :=
  match value with
  | String z (String x digits) =>
      if Ascii.eqb z "0" && (Ascii.eqb x "x" || Ascii.eqb x "X") && all_hex digits
      then Some digits else None
  | _ => None
  end.

(** [hexToBytes]: two digits make a byte, a last digit left alone makes one
    too. *)
Fixpoint hexToBytes (digits : string) : list Z :=
  match digits with
  | EmptyString => []
  | String a EmptyString => [hex_value a]
  | String a (String b r) => (16 * hex_value a + hex_value b) :: hexToBytes r
  end.

Definition SHA3_NULL_S : string :=
  "0xc5d2460186f7233c927e7db2dcc703c0e500b653ca82273b7bfad8045d85a470".

(** [Web3.utils.keccak256(value)]; [None] is [null]. *)
Definition keccak256 (value : string) : option string :=
  let bytes :=
    match hex_digits value with
    | Some digits => hexToBytes digits
    | None => Keccak.utf8 value
    end in
  let returnValue := String "0" (String "x" (Keccak.hex (Keccak.digest bytes))) in
  if String.eqb returnValue SHA3_NULL_S then None else Some returnValue.

End Web3.

(** ** Data model *)

(** [class PathBuffer { path?: string; buffer: Buffer }]; its [path] is
    [buffer_path] here. *)
Record PathBuffer := mkPathBuffer {
  buffer : list Byte.byte;
  buffer_path : option string
}.

(** [class PathContent { path: string; content: string }]; both fields may be
    [undefined] at run time ([new PathContent(undefined)]). *)
Record PathContent := mkPathContent {
  content : option string;
  path : option string
}.

(** One entry of [metadata.sources], [{ content?, keccak256, urls? }]; its
    [content] is [src_content] and its [keccak256] is [keccak256_of] here. *)
Record SourceInfo := mkSourceInfo {
  src_content : option string;
  keccak256_of : string;
  urls : option (list string)
}.

(** The value stored in [missingSources]: [{ keccak256: hash, urls }]. *)
Record MissingInfo := mkMissingInfo {
  missing_keccak256 : string;
  missing_urls : option (list string)
}.

(** Exceptions that escape the service, and what a promise is rejected
    with. *)
Inductive exn :=
  | TypeError
  | Error (message : string).

(** What [await fetch(url)] resolves to: [res.status], and what
    [await res.text()] resolves to or is rejected with. *)
Record Response := mkResponse {
  status : Z;
  text : exn + string
}.

(** Truthiness of a value that is a string, [undefined] or [null]. *)
Definition truthy (v : option string) : bool :=
  match v with
  | Some s => negb (String.eqb s "")
  | None => false
  end.

(** [calculated != hash] and [calculated !== hash] agree, and are the
    negation of this, when [calculated] is a string or [null] and [hash] is a
    string. *)
Definition same_hash (calculated : option string) (hash : string) : bool :=
  match calculated with
  | Some h => String.eqb h hash
  | None => false
  end.

(** Object references into the heap of [PathContent] objects. *)
Abbreviation ref := nat (only parsing).

(** A plain object created by [{}] and used as a dictionary: its own
    properties, and the object that an assignment to [__proto__] has made its
    prototype ([None] while that still is [Object.prototype]). *)
Record dictionary (V : Type) := mkDictionary {
  own : gmap string V;
  proto : option V
}.
Arguments mkDictionary {V} own proto.
Arguments own {V} d.
Arguments proto {V} d.

Definition PROTO := "__proto__".

(** [o[name] = v] for a value [v] that is an object. The name [__proto__]
    reaches the setter inherited from [Object.prototype]: it replaces the
    prototype of [o] and creates no property. *)
Definition assign {V : Type} (name : string) (v : V) (o : dictionary V)
  : dictionary V :=
  if String.eqb name PROTO then mkDictionary (own o) (Some v)
  else mkDictionary (<[name := v]> (own o)) (proto o).

(** [o[name] = v] for a string [v]: the setter of [__proto__] ignores a value
    that is no object, so the prototype of [o] stays [Object.prototype] and
    only the own properties of [o] are kept here. *)
Definition assign_string (name v : string) (o : gmap string string)
  : gmap string string :=
  if String.eqb name PROTO then o else <[name := v]> o.

(** The variables of one run of [rearrangeSources], with the heap of
    [PathContent] objects, the trace of URLs handed to [fetch] and, once the
    run has thrown, what it threw: the caller then receives no result. *)
Record State := mkState {
  heap : list PathContent;
  hash2file : gmap (option string) ref;
  foundSources : dictionary ref;
  missingSources : dictionary MissingInfo;
  invalidSources : gmap string string;
  requests : list string;
  thrown : option exn
}.

(** [file.content] for the object behind a reference. *)
Definition content_at (h : list PathContent) (r : ref) : option string :=
  match h !! r with
  | Some f => content f
  | None => None
  end.

(** [file.content = c]. *)
Definition set_content (h : list PathContent) (r : ref) (c : string)
  : list PathContent :=
  match h !! r with
  | Some f => <[r := mkPathContent (Some c) (path f)]> h
  | None => h
  end.

(** A value produced by [JSON.parse]. An object lists its own properties in
    enumeration order, each name once. Numbers are modelled as integers. *)
Inductive json :=
  | JNull
  | JBool (b : bool)
  | JNumber (n : Z)
  | JString (s : string)
  | JArray (items : list json)
  | JObject (fields : list (string * json)).

(** How a call ends. [Unmodelled] marks metadata whose fields have types the
    model does not interpret (a [keccak256] that is not a string, say). *)
Inductive outcome (A : Type) :=
  | Returned (a : A)
  | Threw (e : exn)
  | Unmodelled.
Arguments Returned {A} a.
Arguments Threw {A} e.
Arguments Unmodelled {A}.

(** What [checkFiles] hands to [new CheckedContract(metadata, foundSources,
    missingSources, invalidSources)]. A found object is never written to again
    (see [found_objects_frozen]), so [solidity] holds the objects themselves. *)
Record CheckedContract := mkCheckedContract {
  metadata : json;
  solidity : dictionary PathContent;
  missing : dictionary MissingInfo;
  invalid : gmap string string
}.

(** What a path leads to, as [traversePathRecursively] tells things apart:
    [Other] exists and is neither a file nor a directory for [lstatSync] (a
    link, a socket); [Absent] is what [existsSync] denies, a path with nothing
    behind it or, inside a directory, an entry such as a link whose target is
    gone. A file system maps every path to a node. *)
Inductive node :=
  | File (data : list Byte.byte)
  | Directory (entries : list (string * node))
  | Other
  | Absent.

(** What [extractAllTo] leaves in a directory of its own: AdmZip writes
    regular files and directories, nothing else. *)
Inductive tree :=
  | Leaf (data : list Byte.byte)
  | Folder (entries : list (string * tree)).

Fixpoint node_of (t : tree) : node :=
  match t with
  | Leaf data => File data
  | Folder entries =>
      Directory (List.map (fun '(name, child) => (name, node_of child)) entries)
  end.

(** The contents of the files of a tree, in the order of its directories. *)
Fixpoint leaves (t : tree) : list (list Byte.byte) :=
  match t with
  | Leaf data => [data]
  | Folder entries => List.flat_map (fun '(_, child) => leaves child) entries
  end.

(** The calls [traversePathRecursively] makes: [worker(filePath)], with what
    the file holds, and [afterDirectory(path)]. *)
Inductive visit :=
  | Worker (filePath : string) (data : list Byte.byte)
  | AfterDirectory (path : string).

Definition OPENZEPPELIN_SCOPE := "@openzeppelin".
Definition IPFS_PREFIX := "dweb:/ipfs/".
Definition IPFS_GATEWAY := "https://ipfs.infura.io:5001/api/v0/cat?arg=".
Definition HASH_MISMATCH_MSG :=
  "The calculated and the provided hash values don't match.".
(** [GITHUB_REGEX.test(s)] for [/^https?:\/\/github.com/]: the dot is an
    unescaped atom and accepts any character but a line terminator. *)
Definition GITHUB_REGEX_test (s : string) : bool :=
  let host r :=
    match after "://github" r with
    | Some (String c r') => negb (is_line_terminator c) && String.prefix "com" r'
    | _ => false
    end in
  match after "http" s with
  | None => false
  | Some r =>
      match after "s" r with
      | Some r' => host r' || host r
      | None => host r
      end
  end.

(** ** Untyped access to parsed metadata *)

(** The own property [k] of an object, [undefined] when it has none. *)
Fixpoint field (k : string) (fields : list (string * json)) : option json :=
  match fields with
  | [] => None
  | (k', v) :: rest => if String.eqb k' k then Some v else field k rest
  end.

(** [v.k] for one of the property names the service reads ([language],
    [compiler], [settings], [compilationTarget]): a [TypeError] on [undefined]
    and [null], [undefined] on a primitive or an array. *)
Definition get (v : option json) (k : string) : exn + option json :=
  match v with
  | None | Some JNull => inl TypeError
  | Some (JObject fields) => inr (field k fields)
  | Some _ => inr None
  end.

(** [!!v]. *)
Definition truthy_json (v : option json) : bool :=
  match v with
  | None | Some JNull => false
  | Some (JBool b) => b
  | Some (JNumber n) => negb (n =? 0)%Z
  | Some (JString s) => negb (String.eqb s "")
  | Some (JArray _) | Some (JObject _) => true
  end.

(** [String(v)], the conversion [JSON.parse] applies to its argument. *)
Fixpoint JS_String (v : json) : string :=
  match v with
  | JNull => "null"
  | JBool true => "true"
  | JBool false => "false"
  | JNumber n => pretty n
  | JString s => s
  | JArray items =>
      String.concat ","
        (List.map (fun e => match e with JNull => "" | _ => JS_String e end) items)
  | JObject _ => "[object Object]"
  end.

(** [isMetadata(obj)]: [obj.language === "Solidity" && !!obj.compiler]. *)
Definition isMetadata (obj : json) : exn + bool :=
  match get (Some obj) "language" with
  | inl e => inl e
  | inr (Some (JString l)) =>
      if String.eqb l "Solidity" then
        match get (Some obj) "compiler" with
        | inl e => inl e
        | inr c => inr (truthy_json c)
        end
      else inr false
  | inr _ => inr false
  end.

(** [Object.keys(metadata.settings.compilationTarget)]: only whether it throws
    matters, the count feeds a message that is never used. *)
Definition compilationTargetKeys (metadata : json) : exn + unit :=
  match get (Some metadata) "settings" with
  | inl e => inl e
  | inr settings =>
      match get settings "compilationTarget" with
      | inl e => inl e
      | inr None | inr (Some JNull) => inl TypeError
      | inr (Some _) => inr tt
      end
  end.

(** The two literal ends of [NESTED_METADATA_REGEX],
    [/"{\\"compiler\\":{\\"version\\".*?},\\"version\\":1}"/]. *)
Definition NESTED_METADATA_HEAD := dq "'{\'compiler\':{\'version\'".
Definition NESTED_METADATA_TAIL := dq "},\'version\':1}'".

(** The lazy [.*?] followed by the tail: the shortest run of characters other
    than line terminators after which [tail] stands; the result is the run
    with the tail. *)
Fixpoint lazy_until (tail s : string) : option string :=
  if String.prefix tail s then Some tail
  else match s with
       | EmptyString => None
       | String c r =>
           if is_line_terminator c then None
           else option_map (String c) (lazy_until tail r)
       end.

(** [s.match(NESTED_METADATA_REGEX)]: the leftmost match, [matchRes[0]]. *)
Fixpoint NESTED_METADATA_match (s : string) : option string :=
  let here :=
    match after NESTED_METADATA_HEAD s with
    | Some r => option_map (String.append NESTED_METADATA_HEAD)
                  (lazy_until NESTED_METADATA_TAIL r)
    | None => None
    end in
  match here with
  | Some m => Some m
  | None =>
      match s with
      | EmptyString => None
      | String _ r => NESTED_METADATA_match r
      end
  end.

Definition NO_METADATA_MSG :=
  dq "Metadata file not found. Did you include 'metadata.json'?".

(** The typed reading of one value of [metadata.sources]. Reading a property
    of [null] throws; [content] and [urls] may be absent or [null]. *)
Definition strings_of (items : list json) : option (list string) :=
  mapM (fun v => match v with JString s => Some s | _ => None end) items.

Definition sourceInfo_of (v : json) : outcome SourceInfo :=
  match v with
  | JNull => Threw TypeError
  | JObject fields =>
      match field "keccak256" fields with
      | Some (JString hash) =>
          let with_urls (c : option string) : outcome SourceInfo :=
            match field "urls" fields with
            | None | Some JNull => Returned (mkSourceInfo c hash None)
            | Some (JArray items) =>
                match strings_of items with
                | Some us => Returned (mkSourceInfo c hash (Some us))
                | None => Unmodelled
                end
            | Some _ => Unmodelled
            end in
          match field "content" fields with
          | None | Some JNull => with_urls None
          | Some (JString c) => with_urls (Some c)
          | Some _ => Unmodelled
          end
      | _ => Unmodelled
      end
  | _ => Unmodelled
  end.

(** The names [for (const fileName in metadata.sources)] enumerates, with
    their values. *)
Definition sources_of (metadata : json) : outcome (list (string * json)) :=
  match get (Some metadata) "sources" with
  | inl e => Threw e
  | inr (Some (JObject fields)) => Returned fields
  | inr None | inr (Some JNull) | inr (Some (JBool _)) | inr (Some (JNumber _)) =>
      Returned []
  | inr (Some (JString _)) | inr (Some (JArray _)) => Unmodelled
  end.

(** ** Vocabulary of the statements *)

(** The classification of a declared source, read off the own properties of
    the three result objects: the name is in exactly one of them. *)
Inductive classification :=
  | Found (file : PathContent)
  | Missing (info : MissingInfo)
  | Invalid (reason : string).

Definition classify (st : State) (fileName : string) : option classification :=
  match own (foundSources st) !! fileName, own (missingSources st) !! fileName,
        invalidSources st !! fileName with
  | Some r, None, None => Found <$> heap st !! r
  | None, Some info, None => Some (Missing info)
  | None, None, Some reason => Some (Invalid reason)
  | _, _, _ => None
  end.

(** The first of the declared URLs that carries [IPFS_PREFIX]. *)
Definition firstIpfsUrl (urls : list string) : option string :=
  List.find (fun url => startsWith url IPFS_PREFIX) urls.

(** The gateway URL an IPFS URL is rewritten to. *)
Definition gatewayUrl (url : string) : string :=
  IPFS_GATEWAY +:+ slice (String.length IPFS_PREFIX) url.

(** The URL [processFetching] hands to [performFetch], if any
    (see [processFetching_requestedUrl]). *)
Definition requestedUrl (fileName : string) (urls : list string) : option string :=
  let fileName := trim fileName in
  if GITHUB_REGEX_test fileName then
    Some (replace "github" "raw.githubusercontent" fileName)
  else if startsWith fileName OPENZEPPELIN_SCOPE then
    gatewayUrl <$> firstIpfsUrl urls
  else None.

(** [h'] keeps the objects of [h] that have content as they are. *)
Definition frozen (h h' : list PathContent) : Prop :=
  forall r f, h !! r = Some f -> truthy (content f) = true -> h' !! r = Some f.

(** Every reference of the index is an object of the heap. *)
Definition index_valid (st : State) : Prop :=
  forall hash r, hash2file st !! hash = Some r -> r < length (heap st).

(** Every found object has content. *)
Definition found_valid (st : State) : Prop :=
  forall fileName r,
    own (foundSources st) !! fileName = Some r ->
    truthy (content_at (heap st) r) = true.

(** No result object has the name as an own property. *)
Definition unclassified (st : State) (fileName : string) : Prop :=
  own (foundSources st) !! fileName = None /\
  own (missingSources st) !! fileName = None /\
  invalidSources st !! fileName = None.

(** No character of [s] is a line terminator. *)
Fixpoint one_line (s : string) : bool :=
  match s with
  | EmptyString => true
  | String c r => negb (is_line_terminator c) && one_line r
  end.

(** [url] is what the fetcher derives from a declared source of [sources]
    that carries no inline content: the rewriting of its path when the
    trimmed path matches [GITHUB_REGEX], or the gateway URL of one of its
    declared IPFS URLs when the trimmed path is in the package scope. *)
Definition derived_request (sources : list (string * SourceInfo)) (url : string)
  : Prop :=
  exists fileName sourceInfo us,
    (fileName, sourceInfo) ∈ sources /\
    truthy (src_content sourceInfo) = false /\
    urls sourceInfo = Some us /\
    ((GITHUB_REGEX_test (trim fileName) = true /\
      url = replace "github" "raw.githubusercontent" (trim fileName)) \/
     (startsWith (trim fileName) OPENZEPPELIN_SCOPE = true /\
      exists declared,
        declared ∈ us /\ startsWith declared IPFS_PREFIX = true /\
        url = IPFS_GATEWAY +:+ slice (String.length IPFS_PREFIX) declared)).

(** The [worker] calls among the calls of a traversal. *)
Definition worker_calls (vs : list visit) : list (string * list Byte.byte) :=
  omap (fun v => match v with
                 | Worker filePath data => Some (filePath, data)
                 | AfterDirectory _ => None
                 end) vs.


(** [existsSync(path)] for the node the path leads to. *)
Definition existsSync (n : node) : bool :=
  match n with
  | Absent => false
  | File _ | Directory _ | Other => true
  end.

(** ** Sample inputs *)

Module Sample.

(** A transport that answers every request with 404. *)
Definition offline (trace : list string) (url : string) : exn + Response :=
  inr (mkResponse 404 (inr "")).

(** A transport that serves one body at one URL and 404 elsewhere. *)
Definition serving (at_url body : string) (trace : list string) (url : string)
  : exn + Response :=
  if String.eqb url at_url then inr (mkResponse 200 (inr body))
  else inr (mkResponse 404 (inr "")).


Definition STORAGE_SOL := "contract Storage { uint256 number; }".
Definition STORAGE_HASH := Eval vm_compute in Keccak.keccak256 STORAGE_SOL.
Definition EMPTY_HASH := Eval vm_compute in Keccak.keccak256 "".

(** A text that is a hexadecimal literal, with the Keccak-256 of its
    characters. *)
Definition HEX_TEXT := "0x1234".
Definition HEX_TEXT_HASH := Eval vm_compute in Keccak.keccak256 HEX_TEXT.

Definition OZ_PATH := "@openzeppelin/contracts/math/SafeMath.sol".
Definition OZ_IPFS := "dweb:/ipfs/QmSafeMath".
Definition OZ_URLS :=
  ["bzz-raw://5f0a"; OZ_IPFS; "dweb:/ipfs/QmOther"; "https://example.org/SafeMath.sol"].
Definition OZ_GATEWAY_URL := "https://ipfs.infura.io:5001/api/v0/cat?arg=QmSafeMath".

(** A metadata document without [settings]. *)
Definition BARE_TEXT := dq "{'language':'Solidity','compiler':{'version':'0.6.0'}}".
Definition BARE_JSON :=
  JObject [("language", JString "Solidity");
           ("compiler", JObject [("version", JString "0.6.0")])].

(** A metadata document that declares no source. *)
Definition LIB_TEXT :=
  dq "{'language':'Solidity','compiler':{'version':'0.6.0'},'settings':{'compilationTarget':{'Lib.sol':'Lib'}},'sources':{}}".
Definition LIB_HASH := Eval vm_compute in Keccak.keccak256 LIB_TEXT.
Definition LIB_JSON :=
  JObject [("language", JString "Solidity");
           ("compiler", JObject [("version", JString "0.6.0")]);
           ("settings", JObject [("compilationTarget", JObject [("Lib.sol", JString "Lib")])]);
           ("sources", JObject [])].

(** A metadata document whose one declared source has the hash of the text
    of the document above. *)
Definition APP_TEXT :=
  dq "{'language':'Solidity','compiler':{'version':'0.6.0'},'settings':{'compilationTarget':{'App.sol':'App'}},'sources':{'App.sol':{'keccak256':'"
  +:+ LIB_HASH +:+ dq "'}}}".
Definition APP_JSON :=
  JObject [("language", JString "Solidity");
           ("compiler", JObject [("version", JString "0.6.0")]);
           ("settings", JObject [("compilationTarget", JObject [("App.sol", JString "App")])]);
           ("sources", JObject [("App.sol", JObject [("keccak256", JString LIB_HASH)])])].

(** A metadata document for a source file that is named [__proto__]. *)
Definition PROTO_TEXT :=
  dq "{'language':'Solidity','compiler':{'version':'0.6.0'},'settings':{'compilationTarget':{'__proto__':'Storage'}},'sources':{'__proto__':{'keccak256':'"
  +:+ STORAGE_HASH +:+ dq "'}}}".
Definition PROTO_JSON :=
  JObject [("language", JString "Solidity");
           ("compiler", JObject [("version", JString "0.6.0")]);
           ("settings", JObject [("compilationTarget", JObject [("__proto__", JString "Storage")])]);
           ("sources", JObject [("__proto__", JObject [("keccak256", JString STORAGE_HASH)])])].

(** [JSON.parse] on the four texts above, and failing elsewhere. The runs
    below also apply it to [STORAGE_SOL] and to ["[object Object]"], neither
    of which is JSON. *)
Definition parse (s : string) : option json :=
  if String.eqb s BARE_TEXT then Some BARE_JSON
  else if String.eqb s LIB_TEXT then Some LIB_JSON
  else if String.eqb s APP_TEXT then Some APP_JSON
  else if String.eqb s PROTO_TEXT then Some PROTO_JSON
  else None.

(** Buffers hold the code units of their text. *)
Definition toString (b : list Byte.byte) : string := string_of_list_byte b.
Definition bytes (s : string) : list Byte.byte := list_byte_of_string s.

(** [Path.join] and [Path.resolve] for relative paths without dots, from
    the working directory [/srv]. *)
Definition join (a b : string) : string := a +:+ "/" +:+ b.
Definition resolve_path (p : string) : string := "/srv/" +:+ p.

(** A clock that stands still. *)
Definition clock (i : nat) : string := "1600000000000".

Definition NOT_A_ZIP : exn :=
  Error "Invalid or unsupported zip format. No END header found".

(** A decoder for which no input is an archive; an archive is what its
    extraction writes. *)
Definition no_archive (b : list Byte.byte) : exn + option tree := inl NOT_A_ZIP.
Definition extract (archive : option tree) : exn + option tree := inr archive.

(** An archive [OUTER] holding a plain file and an archive [INNER], which
    holds one plain file in a directory; an archive [HOLLOW] without
    entries. *)
Definition OUTER := bytes "PK-outer".
Definition INNER := bytes "PK-inner".
Definition HOLLOW := bytes "PK-hollow".
Definition README := bytes "readme".
Definition DEEP := bytes "contract Deep {}".
Definition nested_archive (b : list Byte.byte) : exn + option tree :=
  if String.eqb (toString b) "PK-outer" then
    inr (Some (Folder [("README.md", Leaf README); ("inner.zip", Leaf INNER)]))
  else if String.eqb (toString b) "PK-inner" then
    inr (Some (Folder [("contracts", Folder [("Deep.sol", Leaf DEEP)])]))
  else if String.eqb (toString b) "PK-hollow" then inr None
  else inl NOT_A_ZIP.

End Sample.

Section Service.

(** [Web3.utils.keccak256] on strings; [None] is [null]. *)
Variable keccak256 : string -> option string.

(** [fetch]: what a request for a URL resolves to or is rejected with, given
    the URLs requested before it. *)
Variable fetch : list string -> string -> exn + Response.

(** [performFetch(fileName, url, hash)]: one request; the body is returned
    only for status 200 and a matching hash. Nothing catches a rejection of
    [fetch(url)] or of [res.text()]. *)
Definition performFetch (trace : list string) (fileName url hash : string)
  : (exn + option string) * list string :=
  let trace' := (trace ++ [url])%list in
  match fetch trace url with
  | inl e => (inl e, trace')
  | inr res =>
      if (status res =? 200)%Z then
        match text res with
        | inl e => (inl e, trace')
        | inr content =>
            if negb (same_hash (keccak256 content) hash) then (inr None, trace')
            else (inr (Some content), trace')
        end
      else (inr None, trace')
  end.

(** The [for (const url of urls)] loop of [processFetching]: it returns at
    the first URL carrying [IPFS_PREFIX]. *)
Fixpoint fetchFromIpfs (trace : list string) (fileName : string)
    (urls : list string) (hash : string)
  : (exn + option string) * list string :=
  match urls with
  | [] => (inr None, trace)
  | url :: rest =>
      if startsWith url IPFS_PREFIX then
        let ipfsCode := slice (String.length IPFS_PREFIX) url in
        let ipfsUrl := IPFS_GATEWAY +:+ ipfsCode in
        performFetch trace fileName ipfsUrl hash
      else fetchFromIpfs trace fileName rest hash
  end.

(** [processFetching(fileName, urls, hash)]. *)
Definition processFetching (trace : list string) (fileName : string)
    (urls : list string) (hash : string)
  : (exn + option string) * list string :=
  let fileName := trim fileName in
  if GITHUB_REGEX_test fileName then
    let rawGithubUrl := replace "github" "raw.githubusercontent" fileName in
    performFetch trace fileName rawGithubUrl hash
  else if startsWith fileName OPENZEPPELIN_SCOPE then
    fetchFromIpfs trace fileName urls hash
  else (inr None, trace).

(** [storeByHash(files)]: the objects [files[0..n-1]] are the first [n]
    objects of the heap; a later file replaces an earlier one under the same
    hash. Every element of [parsedFiles] is built from [buffer.toString()]
    and so carries a string; an object without one contributes no key. *)
Fixpoint storeByHash_from (i : ref) (files : list PathContent)
    (byHash : gmap (option string) ref) : gmap (option string) ref :=
  match files with
  | [] => byHash
  | f :: rest =>
      storeByHash_from (S i) rest
        (match content f with
         | Some c => <[keccak256 c := i]> byHash
         | None => byHash
         end)
  end.

Definition storeByHash (files : list PathContent) : gmap (option string) ref :=
  storeByHash_from 0 files ∅.

(** The tail of one iteration of the loop of [rearrangeSources], from
    [if (!file.content && sourceInfo.urls)] on, for the object [file]. A
    rejection met by [await this.processFetching(...)] ends the run. *)
Definition resolve (st : State) (fileName : string) (sourceInfo : SourceInfo)
    (file : ref) : State :=
  let hash := keccak256_of sourceInfo in
  let st1 :=
    match urls sourceInfo with
    | Some us =>
        if negb (truthy (content_at (heap st) file)) then
          let '(fetched, trace') := processFetching (requests st) fileName us hash in
          match fetched with
          | inl e =>
              mkState (heap st) (hash2file st) (foundSources st)
                      (missingSources st) (invalidSources st) trace' (Some e)
          | inr (Some c) =>
              if truthy (Some c) then
                mkState (set_content (heap st) file c)
                        (<[Some hash := file]> (hash2file st))
                        (foundSources st) (missingSources st)
                        (invalidSources st) trace' (thrown st)
              else
                mkState (heap st) (hash2file st) (foundSources st)
                        (missingSources st) (invalidSources st) trace' (thrown st)
          | inr None =>
              mkState (heap st) (hash2file st) (foundSources st)
                      (missingSources st) (invalidSources st) trace' (thrown st)
          end
        else st
    | None => st
    end in
  match thrown st1 with
  | Some _ => st1
  | None =>
      if truthy (content_at (heap st1) file) then
        mkState (heap st1) (hash2file st1)
                (assign fileName file (foundSources st1))
                (missingSources st1) (invalidSources st1) (requests st1) None
      else
        mkState (heap st1) (hash2file st1) (foundSources st1)
                (assign fileName (mkMissingInfo hash (urls sourceInfo))
                        (missingSources st1))
                (invalidSources st1) (requests st1) None
  end.

(** One iteration of [for (const fileName in metadata.sources)]; none is run
    once the loop has thrown. *)
Definition step (st : State) (entry : string * SourceInfo) : State :=
  let '(fileName, sourceInfo) := entry in
  match thrown st with
  | Some _ => st
  | None =>
      (* let file = new PathContent(undefined); file.content = sourceInfo.content; *)
      let fresh := length (heap st) in
      let st0 :=
        mkState (heap st ++ [mkPathContent (src_content sourceInfo) None])%list
                (hash2file st) (foundSources st) (missingSources st)
                (invalidSources st) (requests st) None in
      let hash := keccak256_of sourceInfo in
      match src_content sourceInfo with
      | Some c =>
          if truthy (Some c) then
            if negb (same_hash (keccak256 c) hash) then
              mkState (heap st0) (hash2file st0) (foundSources st0)
                      (missingSources st0)
                      (assign_string fileName HASH_MISMATCH_MSG (invalidSources st0))
                      (requests st0) None
            else resolve st0 fileName sourceInfo fresh
          else
            (* file = hash2file.get(hash) || file *)
            resolve st0 fileName sourceInfo
                    (default fresh (hash2file st0 !! Some hash))
      | None =>
          resolve st0 fileName sourceInfo
                  (default fresh (hash2file st0 !! Some hash))
      end
  end.

(** The state in which the loop of [rearrangeSources] starts: empty result
    objects and [hash2file = storeByHash(files)], over a heap whose first
    objects are [files]. *)
Definition initial (files : list PathContent) (trace : list string) : State :=
  mkState files (storeByHash files) (mkDictionary ∅ None) (mkDictionary ∅ None)
          ∅ trace None.

(** [rearrangeSources(metadata, files)] for the entries of
    [metadata.sources] in enumeration order: the variables of the run when it
    ends. It returns its three result objects when [thrown] is [None], and is
    rejected with what [thrown] holds otherwise. *)
Definition rearrangeSources (sources : list (string * SourceInfo))
    (files : list PathContent) (trace : list string) : State :=
  fold_left step sources (initial files trace).

(** *** Metadata scanning *)

(** [JSON.parse]; [None] when it throws. *)
Variable JSON_parse : string -> option json.

(** [extractMetadataFromString(file)]: the [try] swallows what
    [JSON.parse] and [isMetadata] throw. *)
Definition extractMetadataFromString (file : string) : option json :=
  match JSON_parse file with
  | None => None
  | Some obj =>
      match isMetadata obj with
      | inl _ => None
      | inr true => Some obj
      | inr false =>
          match JSON_parse (JS_String obj) with
          | None => None
          | Some obj' =>
              match isMetadata obj' with
              | inr true => Some obj'
              | _ => None
              end
          end
      end
  end.

(** The value of [metadata] in the loop of [findMetadataFiles] once the
    text of a file has been looked at, directly and through
    [NESTED_METADATA_REGEX]. *)
Definition metadataOf (c : string) : option json :=
  match extractMetadataFromString c with
  | Some m => Some m
  | None =>
      match NESTED_METADATA_match c with
      | Some matched => extractMetadataFromString matched
      | None => None
      end
  end.

(** The loop of [findMetadataFiles]. A file without a text makes
    [file.content.match] throw. *)
Fixpoint scanMetadata (files : list PathContent) (metadataCollection : list json)
  : exn + list json :=
  match files with
  | [] => inr metadataCollection
  | file :: rest =>
      match content file with
      | None => inl TypeError
      | Some c =>
          match metadataOf c with
          | Some m =>
              match compilationTargetKeys m with
              | inl e => inl e
              | inr _ => scanMetadata rest (metadataCollection ++ [m])%list
              end
          | None => scanMetadata rest metadataCollection
          end
      end
  end.

(** [findMetadataFiles(files)]. *)
Definition findMetadataFiles (files : list PathContent) : exn + list json :=
  match scanMetadata files [] with
  | inl e => inl e
  | inr [] => inl (Error NO_METADATA_MSG)
  | inr metadataCollection => inr metadataCollection
  end.


(** *** Traversing paths *)

(** [Path.join] and [Path.resolve]. *)
Variable Path_join : string -> string -> string.
Variable Path_resolve : string -> string.

Definition NONEXISTENT_PATH_MSG (path : string) : string :=
  "Encountered a nonexistent path: " +:+ path.

(** [readdirSync(path).forEach(...)]: the traversals of the entries one after
    the other, up to the first that throws. *)
Definition forEachEntry (f : string -> node -> exn + list visit)
  : list (string * node) -> exn + list visit :=
  fix forEach entries :=
    match entries with
    | [] => inr []
    | (nestedName, child) :: rest =>
        match f nestedName child with
        | inl e => inl e
        | inr vs =>
            match forEach rest with
            | inl e => inl e
            | inr ws => inr (vs ++ ws)
            end
        end
    end.

(** [traversePathRecursively(path, worker, afterDirectory)] on the node the
    path leads to: the calls it makes, in order, or what it throws. *)
Fixpoint traversePathRecursively (path : string) (n : node) : exn + list visit :=
  match n with
  | Absent => inl (Error (NONEXISTENT_PATH_MSG path))
  | File data => inr [Worker path data]
  | Directory entries =>
      match forEachEntry
              (fun nestedName child =>
                 traversePathRecursively (Path_join path nestedName) child)
              entries with
      | inl e => inl e
      | inr vs => inr (vs ++ [AfterDirectory path])
      end
  | Other => inr []
  end.


(** *** Archive expansion *)

(** [new AdmZip(buffer)]: the archive, or what the constructor throws for
    bytes that are no archive. *)
Variable zip : Type.
Variable AdmZip : list Byte.byte -> exn + zip.

(** [archive.extractAllTo(tmpDir)] for a [tmpDir] that does not exist yet:
    what it throws, or what it leaves at [tmpDir], [None] when it has written
    nothing there. *)
Variable extractAllTo : zip -> exn + option tree.

(** [Date.now().toString()] when the element at a position of the array is
    visited. *)
Variable Date_now : nat -> string.

(** [isZip(file)]. *)
Definition isZip (file : list Byte.byte) : bool :=
  match AdmZip file with
  | inr _ => true
  | inl _ => false
  end.

(** [unzip(zippedFile, files)]: the array after the pushes, or what is
    thrown. The first traversal reads the extracted files, the second removes
    them and their directories. *)
Definition unzip (timestamp : string) (zippedFile : PathBuffer)
    (files : list PathBuffer) : exn + list PathBuffer :=
  let tmpDir := "tmp-unzipped-" +:+ timestamp in
  match AdmZip (buffer zippedFile) with
  | inl e => inl e
  | inr archive =>
      match extractAllTo archive with
      | inl e => inl e
      | inr written =>
          let extracted :=
            match written with
            | Some t => node_of t
            | None => Absent
            end in
          match traversePathRecursively tmpDir extracted with
          | inl e => inl e
          | inr vs =>
              let files' :=
                (files ++ List.map (fun call =>
                                      mkPathBuffer (snd call) (buffer_path zippedFile))
                                   (worker_calls vs))%list in
              match traversePathRecursively tmpDir extracted with
              | inl e => inl e
              | inr _ => inr files'
              end
          end
      end
  end.

(** The loop of [findInputFiles]. [unzip] pushes onto the array the
    [for ... of] is iterating, so the loop also visits what it pushed:
    [queue] is the part of [files] not visited yet and [i] the position the
    loop has reached. *)
Fixpoint findInputFiles_loop (fuel : nat) (i : nat)
    (queue inputFiles : list PathBuffer) : option (exn + list PathBuffer) :=
  match queue with
  | [] => Some (inr inputFiles)
  | file :: rest =>
      match fuel with
      | O => None
      | S fuel' =>
          if isZip (buffer file) then
            match unzip (Date_now i) file rest with
            | inl e => Some (inl e)
            | inr queue' => findInputFiles_loop fuel' (S i) queue' inputFiles
            end
          else
            findInputFiles_loop fuel' (S i) rest (inputFiles ++ [file])%list
      end
  end.

(** [findInputFiles(files)]: what it returns or throws; [None] when the loop
    is still running after [fuel] iterations. *)
Definition findInputFiles (fuel : nat) (files : list PathBuffer)
  : option (exn + list PathBuffer) :=
  findInputFiles_loop fuel 0 files [].

(** The contents of the files an archive extracts to; [None] for bytes that
    are no archive, and for an archive whose extraction throws or writes
    nothing. *)
Definition archive_entries (b : list Byte.byte) : option (list (list Byte.byte)) :=
  match AdmZip b with
  | inr archive =>
      match extractAllTo archive with
      | inr (Some t) => Some (leaves t)
      | _ => None
      end
  | inl _ => None
  end.

(** [expands top file]: [file] is [top] itself when [top] is no archive,
    else what an entry of [top], carrying the path of [top], expands to. *)
Inductive expands : PathBuffer -> PathBuffer -> Prop :=
  | expands_plain file :
      isZip (buffer file) = false -> expands file file
  | expands_entry top entries entry file :
      archive_entries (buffer top) = Some entries ->
      entry ∈ entries ->
      expands (mkPathBuffer entry (buffer_path top)) file ->
      expands top file.

(** Archives nest at most [depth] deep in [b], and each of them extracts to
    something. *)
Fixpoint nests_within (depth : nat) (b : list Byte.byte) : Prop :=
  match depth with
  | O => isZip b = false
  | S depth' =>
      isZip b = false \/
      exists entries,
        archive_entries b = Some entries /\ Forall (nests_within depth') entries
  end.

(** The number of iterations the expansion of [b] takes when archives nest
    at most [depth] deep. *)
Fixpoint expansion_size (depth : nat) (b : list Byte.byte) : nat :=
  match depth with
  | O => 1
  | S depth' =>
      match archive_entries b with
      | Some entries => S (list_sum (List.map (expansion_size depth') entries))
      | None => 1
      end
  end.

(** *** The whole check *)

(** [buffer.toString()]. *)
Variable Buffer_toString : list Byte.byte -> string.

(** [rearrangeSources] on the untyped metadata: each value of
    [metadata.sources] is read when its iteration starts. *)
Fixpoint rearrangeEntries (entries : list (string * json)) (st : State)
  : outcome State :=
  match entries with
  | [] => Returned st
  | (fileName, v) :: rest =>
      match sourceInfo_of v with
      | Returned sourceInfo =>
          let st' := step st (fileName, sourceInfo) in
          match thrown st' with
          | Some e => Threw e
          | None => rearrangeEntries rest st'
          end
      | Threw e => Threw e
      | Unmodelled => Unmodelled
      end
  end.

Definition rearrangeSources_any (metadata : json) (files : list PathContent)
    (trace : list string) : outcome State :=
  match sources_of metadata with
  | Returned entries => rearrangeEntries entries (initial files trace)
  | Threw e => Threw e
  | Unmodelled => Unmodelled
  end.

(** The objects behind the references of [foundSources]. *)
Definition found_objects (st : State) : dictionary PathContent :=
  mkDictionary (omap (fun r => heap st !! r) (own (foundSources st)))
               (proto (foundSources st) ≫= fun r => heap st !! r).

(** [for (const metadata of metadataFiles)] in [checkFiles]. The objects of
    [parsedFiles] are the first objects of the heap and keep what an earlier
    pass wrote into them. *)
Fixpoint checkAll (metadataFiles : list json) (parsedFiles : list PathContent)
    (trace : list string) (checkedContracts : list CheckedContract)
  : outcome (list CheckedContract * list string) :=
  match metadataFiles with
  | [] => Returned (checkedContracts, trace)
  | metadata :: rest =>
      match rearrangeSources_any metadata parsedFiles trace with
      | Returned st =>
          let checkedContract :=
            mkCheckedContract metadata (found_objects st)
              (missingSources st) (invalidSources st) in
          checkAll rest (take (length parsedFiles) (heap st)) (requests st)
            (checkedContracts ++ [checkedContract])%list
      | Threw e => Threw e
      | Unmodelled => Unmodelled
      end
  end.

(** [checkFiles(files)] once [findInputFiles] has returned [inputFiles]. *)
Definition checkInputFiles (inputFiles : list PathBuffer) (trace : list string)
  : outcome (list CheckedContract * list string) :=
  let parsedFiles :=
    List.map (fun pathBuffer =>
                mkPathContent (Some (Buffer_toString (buffer pathBuffer)))
                              (buffer_path pathBuffer)) inputFiles in
  match findMetadataFiles parsedFiles with
  | inl e => Threw e
  | inr metadataFiles => checkAll metadataFiles parsedFiles trace []
  end.

(** [checkFiles(files)]: the checked contracts with the requests made. *)
Definition checkFiles (fuel : nat) (files : list PathBuffer) (trace : list string)
  : option (outcome (list CheckedContract * list string)) :=
  match findInputFiles fuel files with
  | None => None
  | Some (inl e) => Some (Threw e)
  | Some (inr inputFiles) => Some (checkInputFiles inputFiles trace)
  end.

(** *** Collecting the files of paths *)

(** The [worker] of [checkPaths]:
    [new PathBuffer(fs.readFileSync(filePath), Path.resolve(filePath))]. *)
Definition readFile (call : string * list Byte.byte) : PathBuffer :=
  mkPathBuffer (snd call) (Some (Path_resolve (fst call))).

(** [paths.forEach(...)] in [checkPaths]: the files collected and the
    [ignoring] array, which may be absent. When a traversal throws, [ignoring]
    keeps what was pushed before. *)
Fixpoint collectPaths (fs : string -> node) (paths : list string)
    (files : list PathBuffer) (ignoring : option (list string))
  : (exn + list PathBuffer) * option (list string) :=
  match paths with
  | [] => (inr files, ignoring)
  | path :: rest =>
      if existsSync (fs path) then
        match traversePathRecursively path (fs path) with
        | inl e => (inl e, ignoring)
        | inr vs =>
            collectPaths fs rest (files ++ (readFile <$> worker_calls vs)) ignoring
        end
      else
        collectPaths fs rest files ((fun l => l ++ [path]) <$> ignoring)
  end.

(** [checkPaths(paths, ignoring)]: what it returns or throws, with the
    [ignoring] array as it leaves it. *)
Definition checkPaths (fuel : nat) (fs : string -> node)
    (paths : list string) (ignoring : option (list string)) (trace : list string)
  : option (outcome (list CheckedContract * list string)) * option (list string) :=
  match collectPaths fs paths [] ignoring with
  | (inl e, ignoring') => (Some (Threw e), ignoring')
  | (inr files, ignoring') => (checkFiles fuel files trace, ignoring')
  end.

(** *** Invariants of the loop *)

(** Every entry of the index leads to an object whose text has the hash the
    entry is filed under. *)
Definition index_sound (st : State) : Prop :=
  forall hash r,
    hash2file st !! hash = Some r ->
    exists c, content_at (heap st) r = Some c /\ keccak256 c = hash.


(** *** What a traversal meets *)





(** ** Properties *)

(** *** Strings *)

Lemma prefix_split (p s : string) :
  String.prefix p s = true -> exists r, s = p +:+ r.
Proof.
  revert s. induction p as [|a p IH]; intros s H.
  - exists s. reflexivity.
  - destruct s as [|b s]; simpl in H; [discriminate|].
    destruct (ascii_dec a b) as [->|]; [|discriminate].
    destruct (IH s H) as [r ->]. exists r. reflexivity.
Qed.

Lemma prefix_append (p r : string) : String.prefix p (p +:+ r) = true.
Proof.
  induction p as [|a p IH]; simpl; [destruct r; reflexivity|].
  destruct (ascii_dec a a); [exact IH|contradiction].
Qed.





Lemma slice_append (p r : string) : slice (String.length p) (p +:+ r) = r.
Proof. induction p as [|a p IH]; [reflexivity|exact IH]. Qed.

Lemma after_Some (p s r : string) : after p s = Some r -> s = p +:+ r.
Proof.
  unfold after. destruct (String.prefix p s) eqn:Hp; [|discriminate].
  apply prefix_split in Hp as [r' ->]. rewrite slice_append. congruence.
Qed.




(** *** The remote fetcher *)

Lemma same_hash_spec calculated hash :
  same_hash calculated hash = true <-> calculated = Some hash.
Proof.
  destruct calculated as [h|]; simpl; [|split; discriminate].
  rewrite String.eqb_eq. split; congruence.
Qed.

Lemma same_hash_false calculated hash :
  same_hash calculated hash = false <-> calculated <> Some hash.
Proof.
  rewrite <- same_hash_spec. destruct (same_hash calculated hash); split; congruence.
Qed.

Lemma performFetch_requests trace fileName url hash :
  snd (performFetch trace fileName url hash) = (trace ++ [url])%list.
Proof. unfold performFetch. repeat case_match; reflexivity. Qed.


Lemma performFetch_success trace fileName url hash res body :
  fetch trace url = inr res ->
  status res = 200%Z -> text res = inr body -> keccak256 body = Some hash ->
  performFetch trace fileName url hash = (inr (Some body), (trace ++ [url])%list).
Proof.
  intros Hres Hs Hbody Hk. unfold performFetch.
  apply same_hash_spec in Hk. rewrite Hres, Hs, Hbody, Hk. reflexivity.
Qed.


Lemma performFetch_Some trace fileName url hash c trace' :
  performFetch trace fileName url hash = (inr (Some c), trace') ->
  keccak256 c = Some hash.
Proof.
  unfold performFetch. intros H.
  destruct (fetch trace url) as [e|res]; [discriminate|].
  destruct (status res =? 200)%Z; [|discriminate].
  destruct (text res) as [e|body]; [discriminate|].
  destruct (same_hash (keccak256 body) hash) eqn:Hk; simpl in H; [|discriminate].
  injection H as <- _. by apply same_hash_spec.
Qed.

Lemma fetchFromIpfs_first trace fileName urls hash :
  fetchFromIpfs trace fileName urls hash =
    match firstIpfsUrl urls with
    | Some url => performFetch trace fileName (gatewayUrl url) hash
    | None => (inr None, trace)
    end.
Proof.
  induction urls as [|url rest IH]; [reflexivity|].
  simpl. destruct (startsWith url IPFS_PREFIX); [reflexivity|exact IH].
Qed.

(** [processFetching] makes one request, for [requestedUrl], or none. *)
Lemma processFetching_requestedUrl trace fileName urls hash :
  processFetching trace fileName urls hash =
    match requestedUrl fileName urls with
    | Some url => performFetch trace (trim fileName) url hash
    | None => (inr None, trace)
    end.
Proof.
  unfold processFetching, requestedUrl.
  destruct (GITHUB_REGEX_test (trim fileName)); [reflexivity|].
  destruct (startsWith (trim fileName) OPENZEPPELIN_SCOPE); [|reflexivity].
  rewrite fetchFromIpfs_first. destruct (firstIpfsUrl urls); reflexivity.
Qed.

Lemma processFetching_Some trace fileName urls hash c trace' :
  processFetching trace fileName urls hash = (inr (Some c), trace') ->
  keccak256 c = Some hash.
Proof.
  rewrite processFetching_requestedUrl.
  destruct (requestedUrl fileName urls); [apply performFetch_Some|discriminate].
Qed.

(** *** The heap of [PathContent] objects *)

Lemma content_at_lookup (h : list PathContent) r f :
  h !! r = Some f -> content_at h r = content f.
Proof. intros H. unfold content_at. rewrite H. reflexivity. Qed.

Lemma content_at_truthy (h : list PathContent) r :
  truthy (content_at h r) = true ->
  exists f, h !! r = Some f /\ truthy (content f) = true.
Proof.
  unfold content_at. destruct (h !! r) as [f|]; [eauto|discriminate].
Qed.

Lemma set_content_length (h : list PathContent) r c :
  length (set_content h r c) = length h.
Proof.
  unfold set_content. destruct (h !! r); [apply length_insert|reflexivity].
Qed.

Lemma set_content_other (h : list PathContent) r c r' :
  r <> r' -> set_content h r c !! r' = h !! r'.
Proof.
  intros Hne. unfold set_content.
  destruct (h !! r); [by apply list_lookup_insert_ne|reflexivity].
Qed.

Lemma set_content_same (h : list PathContent) r c f :
  h !! r = Some f ->
  set_content h r c !! r = Some (mkPathContent (Some c) (path f)).
Proof.
  intros H. unfold set_content. rewrite H.
  apply list_lookup_insert_eq. by eapply lookup_lt_Some.
Qed.

(** Writing into an object without content leaves the objects with content
    as they are. *)
Lemma set_content_frozen (h : list PathContent) r c :
  truthy (content_at h r) = false -> frozen h (set_content h r c).
Proof.
  intros Hr r' f Hf Ht. rewrite set_content_other; [exact Hf|].
  intros ->. rewrite (content_at_lookup _ _ _ Hf) in Hr. congruence.
Qed.

Lemma frozen_refl (h : list PathContent) : frozen h h.
Proof. intros r f Hf _. exact Hf. Qed.

Lemma frozen_trans (h1 h2 h3 : list PathContent) :
  frozen h1 h2 -> frozen h2 h3 -> frozen h1 h3.
Proof. intros H12 H23 r f Hf Ht. apply H23; [apply H12|]; assumption. Qed.

Lemma frozen_app (h l : list PathContent) : frozen h (h ++ l)%list.
Proof. intros r f Hf _. by apply lookup_app_l_Some. Qed.

Lemma frozen_content_at (h h' : list PathContent) r :
  frozen h h' -> truthy (content_at h r) = true ->
  content_at h' r = content_at h r.
Proof.
  intros Hfr Ht. destruct (content_at_truthy _ _ Ht) as (f & Hf & Htf).
  rewrite (content_at_lookup _ _ _ Hf).
  apply content_at_lookup. by apply Hfr.
Qed.

(** *** One iteration of the loop *)

Lemma content_at_set_content (h : list PathContent) r c :
  is_Some (h !! r) -> content_at (set_content h r c) r = Some c.
Proof.
  intros [f Hf]. unfold content_at.
  rewrite (set_content_same _ _ _ _ Hf). reflexivity.
Qed.


(** *** Assignments to the result objects *)

Lemma own_assign_eq {V : Type} name (v : V) o :
  name <> PROTO -> own (assign name v o) !! name = Some v.
Proof.
  intros Hne. unfold assign. apply String.eqb_neq in Hne. rewrite Hne.
  apply lookup_insert_eq.
Qed.

Lemma own_assign_ne {V : Type} name (v : V) o other :
  other <> name -> own (assign name v o) !! other = own o !! other.
Proof.
  intros Hne. unfold assign. destruct (String.eqb name PROTO); [reflexivity|].
  by apply lookup_insert_ne.
Qed.

Lemma own_assign_PROTO {V : Type} name (v : V) o :
  own (assign name v o) !! PROTO = own o !! PROTO.
Proof.
  unfold assign. destruct (String.eqb_spec name PROTO) as [->|Hne]; [reflexivity|].
  by apply lookup_insert_ne.
Qed.

Lemma assign_string_eq name v o :
  name <> PROTO -> assign_string name v o !! name = Some v.
Proof.
  intros Hne. unfold assign_string. apply String.eqb_neq in Hne. rewrite Hne.
  apply lookup_insert_eq.
Qed.

Lemma assign_string_ne name v o other :
  other <> name -> assign_string name v o !! other = o !! other.
Proof.
  intros Hne. unfold assign_string. destruct (String.eqb name PROTO); [reflexivity|].
  by apply lookup_insert_ne.
Qed.

Lemma assign_string_PROTO name v o :
  assign_string name v o !! PROTO = o !! PROTO.
Proof.
  unfold assign_string. destruct (String.eqb_spec name PROTO) as [->|Hne];
    [reflexivity|]. by apply lookup_insert_ne.
Qed.

(** *** One iteration of the loop *)

(** The five ways the tail of an iteration ends: found without a request,
    missing without a request, missing after a request that brought
    nothing, found after a request, thrown out of by a request. *)
Lemma resolve_cases st fileName sourceInfo file :
  let hash := keccak256_of sourceInfo in
  thrown st = None ->
  is_Some (heap st !! file) ->
  (truthy (content_at (heap st) file) = true /\
   resolve st fileName sourceInfo file =
     mkState (heap st) (hash2file st) (assign fileName file (foundSources st))
             (missingSources st) (invalidSources st) (requests st) None)
  \/
  (truthy (content_at (heap st) file) = false /\ urls sourceInfo = None /\
   resolve st fileName sourceInfo file =
     mkState (heap st) (hash2file st) (foundSources st)
             (assign fileName (mkMissingInfo hash None) (missingSources st))
             (invalidSources st) (requests st) None)
  \/
  (exists us fetched trace',
     truthy (content_at (heap st) file) = false /\ urls sourceInfo = Some us /\
     processFetching (requests st) fileName us hash = (inr fetched, trace') /\
     truthy fetched = false /\
     resolve st fileName sourceInfo file =
       mkState (heap st) (hash2file st) (foundSources st)
               (assign fileName (mkMissingInfo hash (Some us)) (missingSources st))
               (invalidSources st) trace' None)
  \/
  (exists us c trace',
     truthy (content_at (heap st) file) = false /\ urls sourceInfo = Some us /\
     processFetching (requests st) fileName us hash = (inr (Some c), trace') /\
     truthy (Some c) = true /\
     resolve st fileName sourceInfo file =
       mkState (set_content (heap st) file c) (<[Some hash := file]> (hash2file st))
               (assign fileName file (foundSources st))
               (missingSources st) (invalidSources st) trace' None)
  \/
  (exists us e trace',
     truthy (content_at (heap st) file) = false /\ urls sourceInfo = Some us /\
     processFetching (requests st) fileName us hash = (inl e, trace') /\
     resolve st fileName sourceInfo file =
       mkState (heap st) (hash2file st) (foundSources st) (missingSources st)
               (invalidSources st) trace' (Some e)).
Proof.
  intros hash Hth Hfile. unfold resolve. fold hash.
  destruct (truthy (content_at (heap st) file)) eqn:Ht.
  - left. split; [reflexivity|].
    destruct (urls sourceInfo); simpl; rewrite Hth, Ht; reflexivity.
  - right. destruct (urls sourceInfo) as [us|] eqn:Hu.
    + right. simpl negb. cbv iota.
      destruct (processFetching (requests st) fileName us hash)
        as [[e|[c|]] trace'] eqn:Hp.
      * right. right. exists us, e, trace'. repeat split; try assumption.
      * destruct (truthy (Some c)) eqn:Htc.
        -- right. left. exists us, c, trace'. repeat split; try assumption.
           cbv beta iota zeta. cbn [heap hash2file foundSources missingSources
                                    invalidSources requests thrown].
           rewrite Hth. rewrite content_at_set_content by exact Hfile.
           rewrite Htc. reflexivity.
        -- left. exists us, (Some c), trace'. repeat split; try assumption.
           cbv beta iota zeta. cbn [heap hash2file foundSources missingSources
                                    invalidSources requests thrown].
           rewrite Hth, Ht. reflexivity.
      * left. exists us, None, trace'. repeat split; try assumption.
        cbv beta iota zeta. cbn [heap hash2file foundSources missingSources
                                 invalidSources requests thrown].
        rewrite Hth, Ht. reflexivity.
    + left. repeat split; try reflexivity. rewrite Hth, Ht. reflexivity.
Qed.

(** No iteration is run once the loop has thrown. *)
Lemma step_thrown st entry e : thrown st = Some e -> step st entry = st.
Proof. intros H. destruct entry. unfold step. rewrite H. reflexivity. Qed.

(** The six ways an iteration ends. [file] is the object the iteration
    settles on: the new one when the entry has inline content, else the one
    the index has for the declared hash, else the new one. *)
Lemma step_cases st fileName sourceInfo :
  let hash := keccak256_of sourceInfo in
  let h0 := (heap st ++ [mkPathContent (src_content sourceInfo) None])%list in
  let file :=
    if truthy (src_content sourceInfo) then length (heap st)
    else default (length (heap st)) (hash2file st !! Some hash) in
  thrown st = None ->
  index_valid st ->
  (exists c,
     src_content sourceInfo = Some c /\ truthy (Some c) = true /\
     keccak256 c <> Some hash /\
     step st (fileName, sourceInfo) =
       mkState h0 (hash2file st) (foundSources st) (missingSources st)
               (assign_string fileName HASH_MISMATCH_MSG (invalidSources st))
               (requests st) None)
  \/
  (truthy (content_at h0 file) = true /\
   (forall c, src_content sourceInfo = Some c -> truthy (Some c) = true ->
              keccak256 c = Some hash) /\
   step st (fileName, sourceInfo) =
     mkState h0 (hash2file st) (assign fileName file (foundSources st))
             (missingSources st) (invalidSources st) (requests st) None)
  \/
  (truthy (src_content sourceInfo) = false /\
   truthy (content_at h0 file) = false /\ urls sourceInfo = None /\
   step st (fileName, sourceInfo) =
     mkState h0 (hash2file st) (foundSources st)
             (assign fileName (mkMissingInfo hash None) (missingSources st))
             (invalidSources st) (requests st) None)
  \/
  (exists us fetched trace',
     truthy (src_content sourceInfo) = false /\
     truthy (content_at h0 file) = false /\ urls sourceInfo = Some us /\
     processFetching (requests st) fileName us hash = (inr fetched, trace') /\
     truthy fetched = false /\
     step st (fileName, sourceInfo) =
       mkState h0 (hash2file st) (foundSources st)
               (assign fileName (mkMissingInfo hash (Some us)) (missingSources st))
               (invalidSources st) trace' None)
  \/
  (exists us c trace',
     truthy (src_content sourceInfo) = false /\
     truthy (content_at h0 file) = false /\ urls sourceInfo = Some us /\
     processFetching (requests st) fileName us hash = (inr (Some c), trace') /\
     truthy (Some c) = true /\
     step st (fileName, sourceInfo) =
       mkState (set_content h0 file c) (<[Some hash := file]> (hash2file st))
               (assign fileName file (foundSources st))
               (missingSources st) (invalidSources st) trace' None)
  \/
  (exists us e trace',
     truthy (src_content sourceInfo) = false /\
     truthy (content_at h0 file) = false /\ urls sourceInfo = Some us /\
     processFetching (requests st) fileName us hash = (inl e, trace') /\
     step st (fileName, sourceInfo) =
       mkState h0 (hash2file st) (foundSources st) (missingSources st)
               (invalidSources st) trace' (Some e)).
Proof.
  intros hash h0 file Hth Hvalid.
  set (st0 := mkState h0 (hash2file st) (foundSources st) (missingSources st)
                      (invalidSources st) (requests st) None).
  assert (Hfresh : h0 !! length (heap st)
                   = Some (mkPathContent (src_content sourceInfo) None)).
  { unfold h0. rewrite lookup_app_r by lia. by rewrite Nat.sub_diag. }
  assert (Hdef : is_Some (h0 !! default (length (heap st))
                                  (hash2file st !! Some hash))).
  { destruct (hash2file st !! Some hash) as [r|] eqn:Hr; simpl; [|eauto].
    apply lookup_lt_is_Some. unfold h0. rewrite length_app.
    specialize (Hvalid _ _ Hr). lia. }
  assert (Hno : truthy (src_content sourceInfo) = false ->
    step st (fileName, sourceInfo) =
      resolve st0 fileName sourceInfo
        (default (length (heap st)) (hash2file st !! Some hash))).
  { intros Hf. unfold step. rewrite Hth. fold hash h0 st0.
    destruct (src_content sourceInfo) as [c|]; [|reflexivity].
    rewrite Hf. reflexivity. }
  destruct (truthy (src_content sourceInfo)) eqn:Ht.
  - destruct (src_content sourceInfo) as [c|] eqn:Hc; [|discriminate].
    destruct (same_hash (keccak256 c) hash) eqn:Hk.
    + right. left. subst file.
      assert (Hca : truthy (content_at h0 (length (heap st))) = true).
      { rewrite (content_at_lookup _ _ _ Hfresh). exact Ht. }
      split; [exact Hca|].
      split; [intros c' [= <-] _; by apply same_hash_spec|].
      unfold step. rewrite Hth, Hc, Ht. fold hash. rewrite Hk.
      simpl negb. cbv iota. fold h0 st0.
      destruct (resolve_cases st0 fileName sourceInfo (length (heap st)))
        as [[_ ->]|[[Hx _]|[(?&?&?&Hx&_)|[(?&?&?&Hx&_)|(?&?&?&Hx&_)]]]];
        [reflexivity|eauto|reflexivity|..]; cbn [heap st0] in Hx; congruence.
    + left. exists c. split; [reflexivity|]. split; [exact Ht|].
      split; [by apply same_hash_false|].
      unfold step. rewrite Hth, Hc, Ht. fold hash. rewrite Hk. reflexivity.
  - right. rewrite (Hno eq_refl). subst file.
    destruct (resolve_cases st0 fileName sourceInfo
                (default (length (heap st)) (hash2file st !! Some hash))
                eq_refl Hdef)
      as [[Hx ->]|[(Hx&Hu&->)|[(us&fetched&trace'&Hx&Hu&Hp&Hf&->)
                               |[(us&c&trace'&Hx&Hu&Hp&Hc&->)
                                |(us&e&trace'&Hx&Hu&Hp&->)]]]].
    + left. split; [exact Hx|]. split; [|reflexivity].
      intros c Hc Htc. rewrite Hc in Ht. congruence.
    + right. left. repeat split; assumption.
    + right. right. left. exists us, fetched, trace'. repeat split; assumption.
    + right. right. right. left. exists us, c, trace'. repeat split; assumption.
    + right. right. right. right. exists us, e, trace'. repeat split; assumption.
Qed.

Lemma own_assign_Some {V : Type} name (v : V) o other w :
  own (assign name v o) !! other = Some w ->
  (other = name /\ name <> PROTO /\ w = v) \/ own o !! other = Some w.
Proof.
  unfold assign. destruct (String.eqb_spec name PROTO) as [->|Hne]; [by right|].
  cbn [own]. destruct (decide (name = other)) as [->|Hne'].
  - rewrite lookup_insert_eq. intros [= <-]. by left.
  - rewrite lookup_insert_ne by exact Hne'. by right.
Qed.

(** What an iteration leaves alone. *)

Lemma step_frozen st entry :
  index_valid st -> frozen (heap st) (heap (step st entry)).
Proof.
  intros Hv. destruct (thrown st) as [e0|] eqn:Hth;
    [rewrite (step_thrown _ _ _ Hth); apply frozen_refl|].
  destruct entry as [fileName sourceInfo].
  destruct (step_cases st fileName sourceInfo Hth Hv)
    as [(c&_&_&_&->)|[(_&_&->)|[(_&_&_&->)|[(us&f&l&_&_&_&_&_&->)
       |[(us&c&l&_&Hx&_&_&_&->)|(us&e&l&_&_&_&_&->)]]]]];
    cbn [heap]; try apply frozen_app.
  eapply frozen_trans; [apply frozen_app|]. by apply set_content_frozen.
Qed.

Lemma step_length st entry :
  index_valid st -> length (heap st) <= length (heap (step st entry)).
Proof.
  intros Hv. destruct (thrown st) as [e0|] eqn:Hth;
    [by rewrite (step_thrown _ _ _ Hth)|].
  destruct entry as [fileName sourceInfo].
  destruct (step_cases st fileName sourceInfo Hth Hv)
    as [(c&_&_&_&->)|[(_&_&->)|[(_&_&_&->)|[(us&f&l&_&_&_&_&_&->)
       |[(us&c&l&_&Hx&_&_&_&->)|(us&e&l&_&_&_&_&->)]]]]]; cbn [heap];
    rewrite ?set_content_length, length_app; simpl; lia.
Qed.

Lemma step_index_valid st entry :
  index_valid st -> index_valid (step st entry).
Proof.
  intros Hv. destruct (thrown st) as [e0|] eqn:Hth;
    [by rewrite (step_thrown _ _ _ Hth)|].
  intros hash r. pose proof (step_length st entry Hv) as Hlen.
  revert Hlen. destruct entry as [fileName sourceInfo].
  destruct (step_cases st fileName sourceInfo Hth Hv)
    as [(c&_&_&_&->)|[(_&_&->)|[(_&_&_&->)|[(us&f&l&_&_&_&_&_&->)
       |[(us&c&l&Ht&Hx&_&_&_&->)|(us&e&l&_&_&_&_&->)]]]]];
    cbn [heap hash2file]; intros Hlen Hr;
    try (specialize (Hv _ _ Hr); lia).
  rewrite Ht in Hr. rewrite set_content_length, length_app. simpl.
  destruct (decide (Some (keccak256_of sourceInfo) = hash)) as [<-|Hne].
  - rewrite lookup_insert_eq in Hr. injection Hr as <-.
    destruct (hash2file st !! Some (keccak256_of sourceInfo)) as [r'|] eqn:Hr';
      simpl; [|lia].
    specialize (Hv _ _ Hr'). lia.
  - rewrite lookup_insert_ne in Hr by exact Hne.
    specialize (Hv _ _ Hr). lia.
Qed.

(** An entry of the index that leads to content stays as it is. *)
Lemma step_index_stable st entry hash r :
  index_valid st ->
  hash2file st !! hash = Some r -> truthy (content_at (heap st) r) = true ->
  hash2file (step st entry) !! hash = Some r.
Proof.
  intros Hv Hr Htr. destruct (thrown st) as [e0|] eqn:Hth;
    [by rewrite (step_thrown _ _ _ Hth)|].
  destruct entry as [fileName sourceInfo].
  destruct (step_cases st fileName sourceInfo Hth Hv)
    as [(c&_&_&_&->)|[(_&_&->)|[(_&_&_&->)|[(us&f&l&_&_&_&_&_&->)
       |[(us&c&l&Ht&Hx&_&_&_&->)|(us&e&l&_&_&_&_&->)]]]]];
    cbn [hash2file]; try exact Hr.
  destruct (decide (Some (keccak256_of sourceInfo) = hash)) as [<-|Hne].
  - exfalso. rewrite Ht, Hr in Hx. simpl in Hx.
    rewrite (frozen_content_at (heap st)) in Hx;
      [congruence|apply frozen_app|exact Htr].
  - by rewrite lookup_insert_ne.
Qed.

(** An iteration writes the result objects only at its own name. *)
Lemma step_frame st fileName sourceInfo other :
  index_valid st -> other <> fileName ->
  own (foundSources (step st (fileName, sourceInfo))) !! other
    = own (foundSources st) !! other /\
  own (missingSources (step st (fileName, sourceInfo))) !! other
    = own (missingSources st) !! other /\
  invalidSources (step st (fileName, sourceInfo)) !! other
    = invalidSources st !! other.
Proof.
  intros Hv Hne. destruct (thrown st) as [e0|] eqn:Hth;
    [by rewrite (step_thrown _ _ _ Hth)|].
  destruct (step_cases st fileName sourceInfo Hth Hv)
    as [(c&_&_&_&->)|[(_&_&->)|[(_&_&_&->)|[(us&f&l&_&_&_&_&_&->)
       |[(us&c&l&Ht&Hx&_&_&_&->)|(us&e&l&_&_&_&_&->)]]]]];
    cbn [foundSources missingSources invalidSources];
    rewrite ?own_assign_ne, ?assign_string_ne by exact Hne; auto.
Qed.

(** No iteration creates a property named [__proto__]. *)
Lemma step_PROTO st entry :
  index_valid st ->
  own (foundSources (step st entry)) !! PROTO = own (foundSources st) !! PROTO /\
  own (missingSources (step st entry)) !! PROTO = own (missingSources st) !! PROTO /\
  invalidSources (step st entry) !! PROTO = invalidSources st !! PROTO.
Proof.
  intros Hv. destruct (thrown st) as [e0|] eqn:Hth;
    [by rewrite (step_thrown _ _ _ Hth)|].
  destruct entry as [fileName sourceInfo].
  destruct (step_cases st fileName sourceInfo Hth Hv)
    as [(c&_&_&_&->)|[(_&_&->)|[(_&_&_&->)|[(us&f&l&_&_&_&_&_&->)
       |[(us&c&l&Ht&Hx&_&_&_&->)|(us&e&l&_&_&_&_&->)]]]]];
    cbn [foundSources missingSources invalidSources];
    rewrite ?own_assign_PROTO, ?assign_string_PROTO; auto.
Qed.

Lemma step_found_valid st entry :
  index_valid st -> found_valid st -> found_valid (step st entry).
Proof.
  intros Hv Hf. destruct (thrown st) as [e0|] eqn:Hth;
    [by rewrite (step_thrown _ _ _ Hth)|].
  intros name r. pose proof (step_frozen st entry Hv) as Hfr.
  revert Hfr. destruct entry as [fileName sourceInfo].
  assert (Hold : forall h', frozen (heap st) h' ->
            own (foundSources st) !! name = Some r ->
            truthy (content_at h' r) = true).
  { intros h' Hfr Hr. rewrite (frozen_content_at _ _ _ Hfr); eauto. }
  destruct (step_cases st fileName sourceInfo Hth Hv)
    as [(c&_&_&_&->)|[(Hx&_&->)|[(_&_&_&->)|[(us&f&l&_&_&_&_&_&->)
       |[(us&c&l&Ht&Hx&_&_&Hc&->)|(us&e&l&_&_&_&_&->)]]]]];
    cbn [heap foundSources]; intros Hfr Hr;
    try (by apply Hold).
  - apply own_assign_Some in Hr as [(_&_&->)|Hr]; [exact Hx|by apply Hold].
  - apply own_assign_Some in Hr as [(_&_&->)|Hr]; [|by apply Hold].
    rewrite content_at_set_content; [exact Hc|].
    apply lookup_lt_is_Some. rewrite length_app. rewrite Ht.
    destruct (hash2file st !! Some (keccak256_of sourceInfo)) as [r'|] eqn:Hr';
      simpl; [specialize (Hv _ _ Hr'); lia|lia].
Qed.

(** *** The content-hash index *)

Lemma storeByHash_from_lookup i files byHash hash r :
  storeByHash_from i files byHash !! hash = Some r ->
  byHash !! hash = Some r \/
  exists j f c, r = i + j /\ files !! j = Some f /\
                content f = Some c /\ keccak256 c = hash.
Proof.
  revert i byHash. induction files as [|f rest IH]; intros i byHash H.
  - left. exact H.
  - simpl in H. apply IH in H as [H|(j&g&c&->&Hg&Hc&Hk)].
    + destruct (content f) as [c|] eqn:Hc; [|by left].
      destruct (decide (keccak256 c = hash)) as [Hk|Hne].
      * rewrite Hk, lookup_insert_eq in H. injection H as <-.
        right. exists 0, f, c. split; [lia|]. auto.
      * rewrite lookup_insert_ne in H by exact Hne. by left.
    + right. exists (S j), g, c. split; [lia|]. auto.
Qed.

Lemma storeByHash_from_is_Some i files byHash hash :
  is_Some (byHash !! hash) \/
  (exists f c, f ∈ files /\ content f = Some c /\ keccak256 c = hash) ->
  is_Some (storeByHash_from i files byHash !! hash).
Proof.
  revert i byHash. induction files as [|f rest IH]; intros i byHash H.
  - destruct H as [H|(f&c&Hf&_)]; [exact H|]. by apply elem_of_nil in Hf.
  - simpl. apply IH.
    destruct H as [H|(g&c&Hg&Hc&Hk)].
    + left. destruct (content f) as [c|]; [|exact H].
      destruct (decide (keccak256 c = hash)) as [->|Hne].
      * rewrite lookup_insert_eq. eauto.
      * by rewrite lookup_insert_ne.
    + apply elem_of_cons in Hg as [->|Hg].
      * left. rewrite Hc, Hk, lookup_insert_eq. eauto.
      * right. eauto.
Qed.

(** Where the index of a pass leads for a hash. *)
Lemma storeByHash_lookup files hash r :
  storeByHash files !! hash = Some r ->
  exists f c, files !! r = Some f /\ content f = Some c /\ keccak256 c = hash.
Proof.
  intros H. apply storeByHash_from_lookup in H as [H|(j&f&c&->&Hf&Hc&Hk)].
  - by rewrite lookup_empty in H.
  - eauto.
Qed.

(** The keys of the index are the hashes of the texts of the files. *)
Lemma storeByHash_dom files hash :
  hash ∈ dom (storeByHash files) <->
  exists f c, f ∈ files /\ content f = Some c /\ keccak256 c = hash.
Proof.
  rewrite elem_of_dom. split.
  - intros [r Hr]. apply storeByHash_lookup in Hr as (f&c&Hf&Hc&Hk).
    exists f, c. split; [by eapply list_elem_of_lookup_2|auto].
  - intros H. apply storeByHash_from_is_Some. by right.
Qed.

Lemma initial_index_valid files trace : index_valid (initial files trace).
Proof.
  intros hash r H. simpl in H.
  apply storeByHash_lookup in H as (f&c&Hf&_). simpl.
  by eapply lookup_lt_Some.
Qed.

Lemma initial_found_valid files trace : found_valid (initial files trace).
Proof. intros name r H. simpl in H. by rewrite lookup_empty in H. Qed.

Lemma initial_unclassified files trace fileName :
  unclassified (initial files trace) fileName.
Proof. repeat split; apply lookup_empty. Qed.

(** *** The loop *)

Lemma run_thrown entries st e :
  thrown st = Some e -> fold_left step entries st = st.
Proof.
  intros H. induction entries as [|entry rest IH]; [reflexivity|].
  simpl. by rewrite (step_thrown _ _ _ H).
Qed.

(** A loop that has not thrown when it ends had not thrown before. *)
Lemma run_returned entries st :
  thrown (fold_left step entries st) = None -> thrown st = None.
Proof.
  intros H. destruct (thrown st) as [e|] eqn:Hth; [|reflexivity].
  by rewrite (run_thrown _ _ _ Hth), Hth in H.
Qed.

Lemma run_returned_app pre entry post st :
  thrown (fold_left step (pre ++ entry :: post) st) = None ->
  thrown (fold_left step pre st) = None /\
  thrown (step (fold_left step pre st) entry) = None.
Proof.
  rewrite fold_left_app. cbn [fold_left]. intros H.
  apply run_returned in H. split; [|exact H].
  destruct (thrown (fold_left step pre st)) as [e|] eqn:Hth; [|reflexivity].
  by rewrite (step_thrown _ _ _ Hth), Hth in H.
Qed.

Lemma run_index_valid entries st :
  index_valid st -> index_valid (fold_left step entries st).
Proof.
  revert st. induction entries as [|e rest IH]; intros st Hv; [exact Hv|].
  simpl. apply IH. by apply step_index_valid.
Qed.

Lemma run_found_valid entries st :
  index_valid st -> found_valid st -> found_valid (fold_left step entries st).
Proof.
  revert st. induction entries as [|e rest IH]; intros st Hv Hf; [exact Hf|].
  simpl. apply IH; [by apply step_index_valid|by apply step_found_valid].
Qed.

Lemma run_frozen entries st :
  index_valid st -> frozen (heap st) (heap (fold_left step entries st)).
Proof.
  revert st. induction entries as [|e rest IH]; intros st Hv; [apply frozen_refl|].
  simpl. eapply frozen_trans; [by apply step_frozen|].
  apply IH. by apply step_index_valid.
Qed.

Lemma run_index_stable entries st hash r :
  index_valid st ->
  hash2file st !! hash = Some r -> truthy (content_at (heap st) r) = true ->
  hash2file (fold_left step entries st) !! hash = Some r.
Proof.
  revert st. induction entries as [|e rest IH]; intros st Hv Hr Ht; [exact Hr|].
  simpl. apply IH.
  - by apply step_index_valid.
  - by apply step_index_stable.
  - rewrite (frozen_content_at (heap st)); [exact Ht|by apply step_frozen|exact Ht].
Qed.

Lemma run_frame entries st other :
  index_valid st -> other ∉ entries.*1 ->
  own (foundSources (fold_left step entries st)) !! other
    = own (foundSources st) !! other /\
  own (missingSources (fold_left step entries st)) !! other
    = own (missingSources st) !! other /\
  invalidSources (fold_left step entries st) !! other
    = invalidSources st !! other.
Proof.
  revert st. induction entries as [|[fileName sourceInfo] rest IH];
    intros st Hv Hnot; [auto|].
  rewrite fmap_cons in Hnot. apply not_elem_of_cons in Hnot as [Hne Hnot].
  cbn [fold_left].
  destruct (IH (step st (fileName, sourceInfo))) as (->&->&->);
    [by apply step_index_valid|exact Hnot|].
  by apply step_frame.
Qed.

Lemma run_PROTO entries st :
  index_valid st -> unclassified st PROTO ->
  unclassified (fold_left step entries st) PROTO.
Proof.
  revert st. induction entries as [|entry rest IH]; intros st Hv Hun; [exact Hun|].
  cbn [fold_left]. apply IH; [by apply step_index_valid|].
  destruct (step_PROTO st entry Hv) as (Hf&Hm&Hi). unfold unclassified.
  rewrite Hf, Hm, Hi. exact Hun.
Qed.

Lemma run_unclassified entries files trace fileName :
  fileName ∉ entries.*1 ->
  unclassified (fold_left step entries (initial files trace)) fileName.
Proof.
  intros Hnot. unfold unclassified.
  destruct (run_frame entries (initial files trace) fileName) as (->&->&->);
    [apply initial_index_valid|exact Hnot|].
  apply initial_unclassified.
Qed.

(** A found object is never written to again. *)
Lemma found_objects_frozen entries st fileName r file :
  index_valid st -> found_valid st ->
  own (foundSources st) !! fileName = Some r -> heap st !! r = Some file ->
  heap (fold_left step entries st) !! r = Some file.
Proof.
  intros Hv Hf Hr Hfile. apply (run_frozen entries st Hv r file Hfile).
  specialize (Hf _ _ Hr). by rewrite (content_at_lookup _ _ _ Hfile) in Hf.
Qed.

(** The classification of a name is settled by its own iteration. *)
Lemma classify_frame entries st fileName :
  index_valid st -> found_valid st -> fileName ∉ entries.*1 ->
  classify (fold_left step entries st) fileName = classify st fileName.
Proof.
  intros Hv Hf Hnot. unfold classify.
  destruct (run_frame entries st fileName Hv Hnot) as (->&->&->).
  destruct (own (foundSources st) !! fileName) as [r|] eqn:Hr; [|reflexivity].
  destruct (content_at_truthy _ _ (Hf _ _ Hr)) as (f&Hlook&Ht).
  rewrite Hlook, (run_frozen entries st Hv r f Hlook Ht). reflexivity.
Qed.

(** A name that occurs once is classified by the iteration it names:
    [rearrangeSources] ends with what that iteration decided. *)
Lemma classify_entry pre fileName sourceInfo post files trace :
  NoDup (pre ++ (fileName, sourceInfo) :: post).*1 ->
  classify (rearrangeSources (pre ++ (fileName, sourceInfo) :: post) files trace)
           fileName =
  classify (step (fold_left step pre (initial files trace)) (fileName, sourceInfo))
           fileName.
Proof.
  intros Hnd. unfold rearrangeSources. rewrite fold_left_app. cbn [fold_left].
  rewrite fmap_app, fmap_cons in Hnd. cbn [fst] in Hnd.
  apply NoDup_app in Hnd as (_&_&Hnd). apply NoDup_cons in Hnd as [Hnot _].
  apply classify_frame; [| |exact Hnot].
  - apply step_index_valid, run_index_valid, initial_index_valid.
  - apply step_found_valid;
      [apply run_index_valid, initial_index_valid|].
    apply run_found_valid;
      [apply initial_index_valid|apply initial_found_valid].
Qed.

Lemma before_entry pre fileName sourceInfo post files trace :
  NoDup (pre ++ (fileName, sourceInfo) :: post).*1 ->
  index_valid (fold_left step pre (initial files trace)) /\
  unclassified (fold_left step pre (initial files trace)) fileName.
Proof.
  intros Hnd. split; [apply run_index_valid, initial_index_valid|].
  apply run_unclassified.
  rewrite fmap_app, fmap_cons in Hnd. cbn [fst] in Hnd.
  apply NoDup_app in Hnd as (_&Hnot&_).
  intros Hin. apply (Hnot _ Hin). left.
Qed.

(** A pass that returns has run the iteration of each of its entries. *)
Lemma entry_reached pre entry post files trace :
  thrown (rearrangeSources (pre ++ entry :: post) files trace) = None ->
  thrown (fold_left step pre (initial files trace)) = None /\
  thrown (step (fold_left step pre (initial files trace)) entry) = None.
Proof. apply run_returned_app. Qed.

(** The object an iteration settles on has no content when the entry has
    no inline content and the index leads to none. *)
Lemma index_miss st sourceInfo :
  index_valid st ->
  truthy (src_content sourceInfo) = false ->
  (forall r, hash2file st !! Some (keccak256_of sourceInfo) = Some r ->
             truthy (content_at (heap st) r) = false) ->
  truthy (content_at (heap st ++ [mkPathContent (src_content sourceInfo) None])
            (default (length (heap st))
               (hash2file st !! Some (keccak256_of sourceInfo)))) = false.
Proof.
  intros Hv Hinline Hmiss.
  destruct (hash2file st !! Some (keccak256_of sourceInfo)) as [r|] eqn:Hr; simpl.
  - specialize (Hmiss r eq_refl). specialize (Hv _ _ Hr).
    unfold content_at in *. rewrite lookup_app_l by exact Hv. exact Hmiss.
  - unfold content_at. rewrite lookup_app_r by lia.
    rewrite Nat.sub_diag. exact Hinline.
Qed.


(** The same iteration when the fetcher brings content: the object the
    iteration settled on enters the index under the declared hash and
    receives the content. *)
Lemma step_fetch_content st fileName sourceInfo us c trace' :
  thrown st = None -> index_valid st ->
  truthy (src_content sourceInfo) = false ->
  (forall r, hash2file st !! Some (keccak256_of sourceInfo) = Some r ->
             truthy (content_at (heap st) r) = false) ->
  urls sourceInfo = Some us ->
  processFetching (requests st) fileName us (keccak256_of sourceInfo)
    = (inr (Some c), trace') ->
  c <> "" ->
  let file := default (length (heap st))
                (hash2file st !! Some (keccak256_of sourceInfo)) in
  step st (fileName, sourceInfo) =
    mkState (set_content (heap st ++ [mkPathContent (src_content sourceInfo) None])
                         file c)
            (<[Some (keccak256_of sourceInfo) := file]> (hash2file st))
            (assign fileName file (foundSources st))
            (missingSources st) (invalidSources st) trace' None.
Proof.
  intros Hth Hv Hinline Hmiss Hu Hp Hc file.
  pose proof (index_miss st sourceInfo Hv Hinline Hmiss) as Hfile.
  assert (Htc : truthy (Some c) = true)
    by (simpl; by apply negb_true_iff, String.eqb_neq).
  destruct (step_cases st fileName sourceInfo Hth Hv)
    as [(c'&Hc'&Htc'&_)|[(Hx&_)|[(_&_&Hu'&_)|[(us'&f&l&_&_&Hu'&Hp'&Hf&_)
       |[(us'&c'&l&_&_&Hu'&Hp'&_&->)|(us'&e&l&_&_&Hu'&Hp'&_)]]]]].
  - rewrite Hc', Htc' in Hinline. discriminate.
  - rewrite Hinline in Hx. congruence.
  - congruence.
  - rewrite Hu in Hu'. injection Hu' as <-. rewrite Hp in Hp'.
    injection Hp' as <- <-. congruence.
  - rewrite Hu in Hu'. injection Hu' as <-. rewrite Hp in Hp'.
    injection Hp' as <- <-. rewrite Hinline. reflexivity.
  - rewrite Hu in Hu'. injection Hu' as <-. rewrite Hp in Hp'. discriminate.
Qed.


(** The iteration of an entry without inline content for whose hash the
    index leads to content. *)
Lemma step_index_hit st fileName sourceInfo r file :
  thrown st = None -> index_valid st ->
  truthy (src_content sourceInfo) = false ->
  hash2file st !! Some (keccak256_of sourceInfo) = Some r ->
  heap st !! r = Some file -> truthy (content file) = true ->
  step st (fileName, sourceInfo) =
    mkState (heap st ++ [mkPathContent (src_content sourceInfo) None])
            (hash2file st) (assign fileName r (foundSources st))
            (missingSources st) (invalidSources st) (requests st) None.
Proof.
  intros Hth Hv Hinline Hidx Hheap Ht.
  assert (Hhit : truthy (content_at
                   (heap st ++ [mkPathContent (src_content sourceInfo) None]) r)
                 = true).
  { rewrite (content_at_lookup _ r file); [exact Ht|].
    by apply lookup_app_l_Some. }
  destruct (step_cases st fileName sourceInfo Hth Hv)
    as [(c'&Hc'&Htc&_)|[(_&_&Heq)|[(_&Hx&_)|[(us&f&l&_&Hx&_)
       |[(us&c'&l&_&Hx&_)|(us&e&l&_&Hx&_)]]]]];
    try (exfalso; rewrite Hinline, Hidx in Hx; simpl in Hx; congruence).
  - rewrite Hc', Htc in Hinline. discriminate.
  - rewrite Hinline, Hidx in Heq. exact Heq.
Qed.

Lemma classify_found st fileName r file h idx trace e :
  fileName <> PROTO ->
  unclassified st fileName -> h !! r = Some file ->
  classify (mkState h idx (assign fileName r (foundSources st))
                    (missingSources st) (invalidSources st) trace e) fileName
    = Some (Found file).
Proof.
  intros Hne (_&Hm&Hi) Hr. unfold classify.
  cbn [foundSources missingSources invalidSources heap].
  rewrite own_assign_eq by exact Hne. rewrite Hm, Hi, Hr. reflexivity.
Qed.

Lemma classify_missing st fileName info h idx trace e :
  fileName <> PROTO ->
  unclassified st fileName ->
  classify (mkState h idx (foundSources st)
                    (assign fileName info (missingSources st))
                    (invalidSources st) trace e) fileName
    = Some (Missing info).
Proof.
  intros Hne (Hf&_&Hi). unfold classify.
  cbn [foundSources missingSources invalidSources heap].
  rewrite own_assign_eq by exact Hne. rewrite Hf, Hi. reflexivity.
Qed.

Lemma classify_invalid st fileName reason h idx trace e :
  fileName <> PROTO ->
  unclassified st fileName ->
  classify (mkState h idx (foundSources st) (missingSources st)
                    (assign_string fileName reason (invalidSources st)) trace e)
           fileName
    = Some (Invalid reason).
Proof.
  intros Hne (Hf&Hm&_). unfold classify.
  cbn [foundSources missingSources invalidSources heap].
  rewrite assign_string_eq by exact Hne. rewrite Hf, Hm. reflexivity.
Qed.

(** A state in which a name is unclassified gives it no classification. *)
Lemma classify_unclassified st fileName :
  unclassified st fileName -> classify st fileName = None.
Proof. intros (Hf&Hm&Hi). unfold classify. by rewrite Hf, Hm, Hi. Qed.

(** *** Claims about the reconciler *)

(** A declared source without non-empty inline content is found in the
    index whenever the batch holds non-empty content with the declared
    hash. *)
Lemma index_hit_is_found pre fileName sourceInfo post files trace :
  NoDup (pre ++ (fileName, sourceInfo) :: post).*1 ->
  fileName <> PROTO ->
  truthy (src_content sourceInfo) = false ->
  (exists g c, g ∈ files /\ content g = Some c /\
               keccak256 c = Some (keccak256_of sourceInfo)) ->
  (forall g c, g ∈ files -> content g = Some c ->
               keccak256 c = Some (keccak256_of sourceInfo) -> c <> "") ->
  let st := fold_left step pre (initial files trace) in
  thrown st = None ->
  exists r file c,
    hash2file st !! Some (keccak256_of sourceInfo) = Some r /\
    files !! r = Some file /\ content file = Some c /\
    keccak256 c = Some (keccak256_of sourceInfo) /\
    step st (fileName, sourceInfo) =
      mkState (heap st ++ [mkPathContent (src_content sourceInfo) None])
              (hash2file st) (assign fileName r (foundSources st))
              (missingSources st) (invalidSources st) (requests st) None /\
    classify (rearrangeSources (pre ++ (fileName, sourceInfo) :: post) files trace)
             fileName = Some (Found file).
Proof.
  intros Hnd Hname Hinline Hex Hnonempty st Hth.
  destruct (before_entry _ _ _ _ files trace Hnd) as [Hv (Hf&Hm&Hi)].
  fold st in Hv, Hf, Hm, Hi.
  destruct (storeByHash_from_is_Some 0 files ∅ (Some (keccak256_of sourceInfo))
              (or_intror Hex)) as [r Hr].
  destruct (storeByHash_lookup _ _ _ Hr) as (file&c&Hfile&Hc&Hk).
  assert (Hin : file ∈ files) by (eapply list_elem_of_lookup_2; eauto).
  assert (Ht : truthy (content file) = true).
  { rewrite Hc. simpl. apply negb_true_iff, String.eqb_neq. eauto. }
  assert (Hidx : hash2file st !! Some (keccak256_of sourceInfo) = Some r).
  { apply run_index_stable; [apply initial_index_valid|exact Hr|].
    simpl. by rewrite (content_at_lookup _ _ _ Hfile). }
  assert (Hheap : heap st !! r = Some file).
  { by apply (run_frozen pre (initial files trace) (initial_index_valid _ _)). }
  assert (Hstep := step_index_hit st fileName sourceInfo r file
                     Hth Hv Hinline Hidx Hheap Ht).
  exists r, file, c. repeat split; try assumption.
  rewrite classify_entry by exact Hnd. fold st. rewrite Hstep.
  apply classify_found; [exact Hname|by repeat split|by apply lookup_app_l_Some].
Qed.

(** For a declared source without inline content and with another name than
    [__proto__], if some candidate file of the batch has content whose hash
    is the declared hash, the source is classified Found when the pass
    returns, with a candidate of the batch whose content has the declared
    hash, unchanged; the origin paths of the candidates play no part. The
    hash is the one the service computes, which gives no hash to the empty
    text. *)
Lemma hash_match_is_found sources files trace fileName sourceInfo candidate c :
  keccak256 "" = None ->
  NoDup sources.*1 ->
  (fileName, sourceInfo) ∈ sources ->
  fileName <> PROTO ->
  src_content sourceInfo = None ->
  candidate ∈ files -> content candidate = Some c ->
  keccak256 c = Some (keccak256_of sourceInfo) ->
  thrown (rearrangeSources sources files trace) = None ->
  exists file c',
    classify (rearrangeSources sources files trace) fileName = Some (Found file) /\
    file ∈ files /\ content file = Some c' /\
    keccak256 c' = Some (keccak256_of sourceInfo).
Proof.
  intros Hempty Hnd Hin Hname Hnone Hcand Hc Hk Hret.
  apply list_elem_of_split in Hin as (pre&post&->).
  destruct (entry_reached _ _ _ _ _ Hret) as [Hth _].
  destruct (index_hit_is_found pre fileName sourceInfo post files trace Hnd Hname)
    as (r&file&c'&_&Hfile&Hc'&Hk'&_&Hcl);
    [by rewrite Hnone|eauto| |exact Hth|].
  { intros g c0 _ _ Hk0 ->. congruence. }
  exists file, c'. repeat split; try assumption.
  eapply list_elem_of_lookup_2; eauto.
Qed.


(** C3 (amended). A request is made only for a declared path that, once
    trimmed of surrounding white space, matches the GitHub URL pattern or
    starts with the package scope; for every other declared path the fetcher
    returns nothing and makes no request, whatever URLs are declared. *)
Theorem fetch_only_trusted_origins trace fileName declared hash :
  GITHUB_REGEX_test (trim fileName) = false ->
  startsWith (trim fileName) OPENZEPPELIN_SCOPE = false ->
  processFetching trace fileName declared hash = (inr None, trace).
Proof.
  intros Hg Hs. unfold processFetching. rewrite Hg, Hs. reflexivity.
Qed.

(** A name the fetcher makes a request for is not [__proto__]. *)
Lemma requestedUrl_name fileName us url :
  requestedUrl fileName us = Some url -> fileName <> PROTO.
Proof. intros H ->. discriminate H. Qed.


(** C9 (amended). When a declared source is resolved by a successful fetch
    (status 200, the body non-empty and hashing to the declared hash), the
    object that received the body is in the index under the declared hash;
    in the result of a pass that returns, every later source that declares
    the same hash, has no inline content or an empty one, and is named
    otherwise than [__proto__], is classified Found with that very object,
    and its iteration makes no request. *)
Theorem fetched_content_is_reused
    pre fileName sourceInfo mid fileName' sourceInfo' post files trace
    us url res body :
  let sources :=
    pre ++ (fileName, sourceInfo) :: mid ++ (fileName', sourceInfo') :: post in
  NoDup sources.*1 ->
  fileName' <> PROTO ->
  let st := fold_left step pre (initial files trace) in
  let hash := keccak256_of sourceInfo in
  truthy (src_content sourceInfo) = false ->
  (forall r, hash2file st !! Some hash = Some r ->
             truthy (content_at (heap st) r) = false) ->
  urls sourceInfo = Some us ->
  requestedUrl fileName us = Some url ->
  fetch (requests st) url = inr res ->
  status res = 200%Z -> text res = inr body ->
  keccak256 body = Some hash -> body <> "" ->
  keccak256_of sourceInfo' = hash ->
  truthy (src_content sourceInfo') = false ->
  let st1 := step st (fileName, sourceInfo) in
  let st2 := fold_left step mid st1 in
  let final := rearrangeSources sources files trace in
  thrown final = None ->
  exists r file,
    hash2file st1 !! Some hash = Some r /\
    heap st1 !! r = Some file /\ content file = Some body /\
    classify final fileName = Some (Found file) /\
    own (foundSources final) !! fileName' = Some r /\
    classify final fileName' = Some (Found file) /\
    requests (step st2 (fileName', sourceInfo')) = requests st2.
Proof.
  intros sources Hnd Hname' st hash Hinline Hmiss Hu Hurl Hres Hs Hbody Hk Hne
         Hhash' Hinline' st1 st2 final Hret.
  assert (Hname : fileName <> PROTO) by (by eapply requestedUrl_name).
  assert (Hnd1 : NoDup (pre ++ (fileName, sourceInfo)
                        :: (mid ++ (fileName', sourceInfo') :: post)).*1)
    by exact Hnd.
  assert (Hsplit : sources
                   = (pre ++ (fileName, sourceInfo) :: mid)
                     ++ (fileName', sourceInfo') :: post).
  { unfold sources. by rewrite <- app_assoc. }
  assert (Hnd2 : NoDup ((pre ++ (fileName, sourceInfo) :: mid)
                        ++ (fileName', sourceInfo') :: post).*1)
    by (rewrite <- Hsplit; exact Hnd).
  destruct (before_entry _ _ _ _ files trace Hnd1) as [Hv Hun].
  fold st in Hv, Hun.
  destruct (before_entry _ _ _ _ files trace Hnd2) as [Hv2 Hun2].
  rewrite fold_left_app in Hv2, Hun2. cbn [fold_left] in Hv2, Hun2.
  fold st st1 st2 in Hv2, Hun2.
  destruct (entry_reached pre (fileName, sourceInfo)
              (mid ++ (fileName', sourceInfo') :: post) files trace Hret)
    as [Hth _]. fold st in Hth.
  assert (Hth2 : thrown st2 = None).
  { unfold final in Hret. rewrite Hsplit in Hret.
    destruct (entry_reached _ _ _ _ _ Hret) as [H _].
    rewrite fold_left_app in H. exact H. }
  (* the iteration that fetches *)
  assert (Hp : processFetching (requests st) fileName us hash
               = (inr (Some body), requests st ++ [url])).
  { rewrite processFetching_requestedUrl, Hurl.
    by eapply performFetch_success. }
  pose proof (step_fetch_content st fileName sourceInfo us _ _
                Hth Hv Hinline Hmiss Hu Hp Hne) as Hstep.
  cbv zeta in Hstep. fold hash st1 in Hstep.
  set (r := default (length (heap st)) (hash2file st !! Some hash)) in Hstep.
  set (h0 := heap st ++ [mkPathContent (src_content sourceInfo) None]) in Hstep.
  assert (Hr : is_Some (h0 !! r)).
  { apply lookup_lt_is_Some. unfold h0, r. rewrite length_app. simpl.
    destruct (hash2file st !! Some hash) as [r'|] eqn:Hr'; simpl; [|lia].
    specialize (Hv _ _ Hr'). lia. }
  destruct Hr as [f0 Hf0].
  set (file := mkPathContent (Some body) (path f0)).
  assert (Hfile : heap st1 !! r = Some file).
  { rewrite Hstep. cbn [heap]. by apply set_content_same. }
  assert (Hidx : hash2file st1 !! Some hash = Some r).
  { rewrite Hstep. cbn [hash2file]. apply lookup_insert_eq. }
  assert (Ht : truthy (content file) = true).
  { simpl. by apply negb_true_iff, String.eqb_neq. }
  assert (Hv1 : index_valid st1) by (by apply step_index_valid).
  (* the iterations in between keep the entry and the object *)
  assert (Hidx2 : hash2file st2 !! Some hash = Some r).
  { apply run_index_stable; [exact Hv1|exact Hidx|].
    by rewrite (content_at_lookup _ _ _ Hfile). }
  assert (Hfile2 : heap st2 !! r = Some file).
  { by apply (run_frozen mid st1 Hv1). }
  (* the later iteration *)
  rewrite <- Hhash' in Hidx2.
  pose proof (step_index_hit st2 fileName' sourceInfo' r file
                Hth2 Hv2 Hinline' Hidx2 Hfile2 Ht) as Hstep'.
  assert (Hcl' : classify final fileName' = Some (Found file)).
  { unfold final. rewrite Hsplit, classify_entry by exact Hnd2.
    rewrite fold_left_app. cbn [fold_left]. fold st st1 st2.
    rewrite Hstep'. apply classify_found; [exact Hname'|exact Hun2|].
    by apply lookup_app_l_Some. }
  exists r, file. repeat split; try assumption.
  - unfold final, sources. rewrite classify_entry by exact Hnd1.
    fold st st1. rewrite Hstep. apply classify_found; [exact Hname|exact Hun|].
    by apply set_content_same.
  - unfold classify in Hcl'.
    destruct (own (foundSources final) !! fileName') as [r'|] eqn:Hr'.
    + assert (Hfinal : final = fold_left step post
                                 (step st2 (fileName', sourceInfo'))).
      { unfold final, rearrangeSources. rewrite Hsplit, !fold_left_app.
        reflexivity. }
      rewrite Hfinal in Hr'.
      rewrite fmap_app, fmap_cons in Hnd2. cbn [fst] in Hnd2.
      apply NoDup_app in Hnd2 as (_&_&Hnd2).
      apply NoDup_cons in Hnd2 as [Hnot _].
      destruct (run_frame post (step st2 (fileName', sourceInfo')) fileName')
        as (Hfr&_); [by apply step_index_valid|exact Hnot|].
      rewrite Hfr, Hstep' in Hr'. cbn [foundSources] in Hr'.
      rewrite own_assign_eq in Hr' by exact Hname'. congruence.
    + destruct (own (missingSources final) !! fileName');
        destruct (invalidSources final !! fileName'); discriminate.
  - rewrite Hstep'. reflexivity.
Qed.


(** *** The content-hash index of a pass *)

(** C6 (amended). The index a pass starts with is built by hashing every
    parsed input of the batch, the files recognized as metadata documents
    included: its keys are exactly the hashes of the texts of the input
    files. *)
Theorem index_hashes_every_input inputFiles trace hash :
  let parsedFiles :=
    List.map (fun pathBuffer =>
                mkPathContent (Some (Buffer_toString (buffer pathBuffer)))
                              (buffer_path pathBuffer)) inputFiles in
  hash ∈ dom (hash2file (initial parsedFiles trace)) <->
  exists pathBuffer,
    pathBuffer ∈ inputFiles /\
    keccak256 (Buffer_toString (buffer pathBuffer)) = hash.
Proof.
  intros parsedFiles. cbn [hash2file initial]. rewrite storeByHash_dom. split.
  - intros (f&c&Hf&Hc&Hk).
    apply list_elem_of_In, in_map_iff in Hf as (pathBuffer&<-&Hin).
    simpl in Hc. injection Hc as <-.
    exists pathBuffer. split; [by apply list_elem_of_In|exact Hk].
  - intros (pathBuffer&Hin&Hk).
    exists (mkPathContent (Some (Buffer_toString (buffer pathBuffer)))
                          (buffer_path pathBuffer)),
           (Buffer_toString (buffer pathBuffer)).
    split; [|split; [reflexivity|exact Hk]].
    apply list_elem_of_In, in_map_iff. exists pathBuffer.
    split; [reflexivity|by apply list_elem_of_In].
Qed.

(** *** Traversing what an archive extracts to *)

Lemma tree_induction (P : tree -> Prop) :
  (forall data, P (Leaf data)) ->
  (forall entries, Forall (fun e => P e.2) entries -> P (Folder entries)) ->
  forall t, P t.
Proof.
  intros Hleaf Hfolder.
  fix IH 1. intros [data|entries]; [apply Hleaf|].
  apply Hfolder. induction entries as [|[name child] rest IHrest];
    constructor; [apply IH|exact IHrest].
Qed.

Lemma worker_calls_app vs ws :
  worker_calls (vs ++ ws) = worker_calls vs ++ worker_calls ws.
Proof. unfold worker_calls. apply omap_app. Qed.


(** A traversal of what an extraction has written does not throw, and calls
    the worker on the files of the tree, in order. *)
Lemma traverse_tree t :
  forall path,
    exists vs,
      traversePathRecursively path (node_of t) = inr vs /\
      List.map snd (worker_calls vs) = leaves t.
Proof.
  induction t as [data|entries IH] using tree_induction; intros path.
  - eexists. split; reflexivity.
  - cbn [node_of traversePathRecursively leaves].
    set (f := fun nestedName child =>
                traversePathRecursively (Path_join path nestedName) child).
    assert (Hentries : exists vs,
      forEachEntry f (List.map (fun '(name, child) => (name, node_of child)) entries)
        = inr vs /\
      List.map snd (worker_calls vs)
        = List.flat_map (fun '(_, child) => leaves child) entries).
    { induction IH as [|[name child] rest Hchild _ (ws&Hws&Hleaves)].
      - exists []. split; reflexivity.
      - simpl in Hchild. destruct (Hchild (Path_join path name)) as (vs&Hvs&Hl).
        exists (vs ++ ws). cbn [List.map forEachEntry List.flat_map].
        fold (forEachEntry f). unfold f at 1. rewrite Hvs, Hws.
        split; [reflexivity|].
        by rewrite worker_calls_app, List.map_app, Hl, Hleaves. }
    destruct Hentries as (vs&->&Hl).
    exists (vs ++ [AfterDirectory path]). split; [reflexivity|].
    rewrite worker_calls_app, List.map_app, Hl. simpl. by rewrite app_nil_r.
Qed.

(** *** Archive expansion *)

(** What [unzip] does, by what the decoder and the extraction do: it throws
    what they throw, it throws the error of a nonexistent path when the
    extraction has written nothing, and else it pushes the extracted files,
    each with the path of the archive. *)
Lemma unzip_outcome timestamp zippedFile files :
  unzip timestamp zippedFile files =
    match AdmZip (buffer zippedFile) with
    | inl e => inl e
    | inr archive =>
        match extractAllTo archive with
        | inl e => inl e
        | inr None =>
            inl (Error (NONEXISTENT_PATH_MSG ("tmp-unzipped-" +:+ timestamp)))
        | inr (Some t) =>
            inr (files ++ List.map (fun b => mkPathBuffer b (buffer_path zippedFile))
                                   (leaves t))
        end
    end.
Proof.
  unfold unzip. destruct (AdmZip (buffer zippedFile)) as [e|archive]; [reflexivity|].
  destruct (extractAllTo archive) as [e|[t|]]; [reflexivity| |reflexivity].
  destruct (traverse_tree t ("tmp-unzipped-" +:+ timestamp)) as (vs&->&Hl).
  rewrite <- Hl, List.map_map. reflexivity.
Qed.

Lemma archive_entries_isZip b entries :
  archive_entries b = Some entries -> isZip b = true.
Proof.
  unfold archive_entries, isZip. by destruct (AdmZip b).
Qed.

Lemma plain_no_entries b : isZip b = false -> archive_entries b = None.
Proof.
  intros H. destruct (archive_entries b) as [entries|] eqn:He; [|reflexivity].
  apply archive_entries_isZip in He. congruence.
Qed.

Lemma unzip_entries timestamp zippedFile files entries :
  archive_entries (buffer zippedFile) = Some entries ->
  unzip timestamp zippedFile files
    = inr (files ++ List.map (fun b => mkPathBuffer b (buffer_path zippedFile))
                             entries).
Proof.
  rewrite unzip_outcome. unfold archive_entries.
  destruct (AdmZip (buffer zippedFile)) as [e|archive]; [discriminate|].
  destruct (extractAllTo archive) as [e|[t|]]; try discriminate.
  by intros [= <-].
Qed.

Lemma unzip_returned timestamp zippedFile files files' :
  unzip timestamp zippedFile files = inr files' ->
  exists entries,
    archive_entries (buffer zippedFile) = Some entries /\
    files' = files ++ List.map (fun b => mkPathBuffer b (buffer_path zippedFile))
                               entries.
Proof.
  rewrite unzip_outcome. unfold archive_entries.
  destruct (AdmZip (buffer zippedFile)) as [e|archive]; [discriminate|].
  destruct (extractAllTo archive) as [e|[t|]]; try discriminate.
  intros [= <-]. eauto.
Qed.

(** An archive that extracts to nothing: [unzip] throws, for want of the
    directory it is to read. *)
Lemma unzip_nothing timestamp zippedFile files archive :
  AdmZip (buffer zippedFile) = inr archive ->
  extractAllTo archive = inr None ->
  unzip timestamp zippedFile files
    = inl (Error (NONEXISTENT_PATH_MSG ("tmp-unzipped-" +:+ timestamp))).
Proof. intros Hz He. by rewrite unzip_outcome, Hz, He. Qed.

Lemma expands_plain_inv file out :
  isZip (buffer file) = false -> expands file out -> out = file.
Proof.
  intros Hz H. destruct H as [file _|top entries entry file Hz' _ _];
    [reflexivity|].
  apply archive_entries_isZip in Hz'. congruence.
Qed.

Lemma expands_archive top entries out :
  archive_entries (buffer top) = Some entries ->
  expands top out <->
  exists q, q ∈ List.map (fun b => mkPathBuffer b (buffer_path top)) entries /\
            expands q out.
Proof.
  intros Hz. split.
  - intros H. destruct H as [file Hz'|top entries' entry file Hz' Hin H].
    { apply archive_entries_isZip in Hz. congruence. }
    rewrite Hz in Hz'. injection Hz' as <-.
    exists (mkPathBuffer entry (buffer_path top)). split; [|exact H].
    apply list_elem_of_In, in_map_iff. exists entry.
    split; [reflexivity|by apply list_elem_of_In].
  - intros (q&Hq&H).
    apply list_elem_of_In, in_map_iff in Hq as (entry&<-&Hin).
    eapply expands_entry; [exact Hz|by apply list_elem_of_In|exact H].
Qed.

(** What comes out of an expansion is no archive and carries the path of
    the input it came from. *)
Lemma expands_result top file :
  expands top file ->
  isZip (buffer file) = false /\ buffer_path file = buffer_path top.
Proof.
  induction 1 as [file Hz|top entries entry file Hz Hin _ [IH1 IH2]];
    [split; [exact Hz|reflexivity]|].
  split; [exact IH1|exact IH2].
Qed.

Lemma findInputFiles_loop_spec fuel i queue inputFiles out :
  findInputFiles_loop fuel i queue inputFiles = Some (inr out) ->
  forall file,
    file ∈ out <-> file ∈ inputFiles \/ exists q, q ∈ queue /\ expands q file.
Proof.
  revert i queue inputFiles.
  induction fuel as [|fuel IH]; intros i queue inputFiles Hloop file.
  - destruct queue; [|discriminate]. injection Hloop as <-.
    split; [by left|]. intros [H|(q&Hq&_)]; [exact H|].
    by apply elem_of_nil in Hq.
  - destruct queue as [|q0 rest].
    { injection Hloop as <-. split; [by left|].
      intros [H|(q&Hq&_)]; [exact H|]. by apply elem_of_nil in Hq. }
    cbn [findInputFiles_loop] in Hloop.
    destruct (isZip (buffer q0)) eqn:Hz.
    + destruct (unzip (Date_now i) q0 rest) as [e|queue'] eqn:Hunzip;
        [discriminate|].
      apply unzip_returned in Hunzip as (entries&Hentries&->).
      rewrite (IH _ _ _ Hloop file). split.
      * intros [H|(q&Hq&Hex)]; [by left|]. right.
        apply elem_of_app in Hq as [Hq|Hq].
        -- exists q. split; [by right|exact Hex].
        -- exists q0. split; [by left|].
           apply (expands_archive _ _ _ Hentries). eauto.
      * intros [H|(q&Hq&Hex)]; [by left|]. right.
        apply elem_of_cons in Hq as [->|Hq].
        -- apply (expands_archive _ _ _ Hentries) in Hex as (q'&Hq'&Hex').
           exists q'. split; [apply elem_of_app; by right|exact Hex'].
        -- exists q. split; [apply elem_of_app; by left|exact Hex].
    + rewrite (IH _ _ _ Hloop file). split.
      * intros [H|(q&Hq&Hex)].
        -- apply elem_of_app in H as [H|H]; [by left|].
           apply list_elem_of_singleton in H as ->. right.
           exists q0. split; [by left|by apply expands_plain].
        -- right. exists q. split; [by right|exact Hex].
      * intros [H|(q&Hq&Hex)]; [left; apply elem_of_app; by left|].
        apply elem_of_cons in Hq as [->|Hq].
        -- left. apply elem_of_app. right.
           rewrite (expands_plain_inv _ _ Hz Hex). by left.
        -- right. eauto.
Qed.

Lemma nests_within_S depth b : nests_within depth b -> nests_within (S depth) b.
Proof.
  revert b. induction depth as [|depth IH]; intros b H.
  - by left.
  - destruct H as [H|(entries&He&Hall)]; [by left|]. right.
    exists entries. split; [exact He|].
    eapply Forall_impl; [exact Hall|]. exact IH.
Qed.

Lemma expansion_size_plain depth b : isZip b = false -> expansion_size depth b = 1.
Proof.
  intros H. destruct depth; [reflexivity|]. simpl.
  by rewrite (plain_no_entries _ H).
Qed.

Lemma expansion_size_stable depth b :
  nests_within depth b -> expansion_size (S depth) b = expansion_size depth b.
Proof.
  revert b. induction depth as [|depth IH]; intros b Hb.
  - simpl in Hb. by rewrite !expansion_size_plain.
  - destruct Hb as [Hb|(entries&He&Hall)]; [by rewrite !expansion_size_plain|].
    change (expansion_size (S (S depth)) b)
      with (match archive_entries b with
            | Some entries =>
                S (list_sum (List.map (expansion_size (S depth)) entries))
            | None => 1
            end).
    change (expansion_size (S depth) b)
      with (match archive_entries b with
            | Some entries =>
                S (list_sum (List.map (expansion_size depth) entries))
            | None => 1
            end).
    rewrite He. f_equal. f_equal. apply map_ext_in. intros entry Hin.
    apply IH. apply (proj1 (Forall_forall _ _) Hall).
    by apply list_elem_of_In.
Qed.

Lemma expansion_size_positive depth b : 0 < expansion_size depth b.
Proof.
  destruct depth; simpl; [lia|]. destruct (archive_entries b); lia.
Qed.

Lemma findInputFiles_loop_terminates depth fuel i queue inputFiles :
  Forall (fun file => nests_within depth (buffer file)) queue ->
  list_sum (List.map (fun file => expansion_size depth (buffer file)) queue)
    <= fuel ->
  exists out, findInputFiles_loop fuel i queue inputFiles = Some (inr out).
Proof.
  revert i queue inputFiles.
  induction fuel as [|fuel IH]; intros i queue inputFiles Hnest Hfuel.
  - destruct queue as [|q0 rest]; [simpl; eauto|].
    cbn [List.map] in Hfuel.
    change (list_sum (?x :: ?l)) with (x + list_sum l) in Hfuel.
    pose proof (expansion_size_positive depth (buffer q0)). lia.
  - destruct queue as [|q0 rest]; [simpl; eauto|].
    apply Forall_cons in Hnest as [Hq0 Hrest].
    cbn [findInputFiles_loop].
    cbn [List.map] in Hfuel.
    change (list_sum (?x :: ?l)) with (x + list_sum l) in Hfuel.
    destruct (isZip (buffer q0)) eqn:Hz.
    + destruct depth as [|depth]; [simpl in Hq0; congruence|].
      destruct Hq0 as [Hq0|(entries&He&Hall)]; [congruence|].
      rewrite (unzip_entries _ _ _ _ He). apply IH.
      * apply Forall_app. split; [exact Hrest|].
        apply Forall_forall. intros q Hq.
        apply list_elem_of_In, in_map_iff in Hq as (entry&<-&Hin).
        simpl. apply nests_within_S.
        apply (proj1 (Forall_forall _ _) Hall). by apply list_elem_of_In.
      * rewrite List.map_app, list_sum_app.
        assert (Hsize : expansion_size (S depth) (buffer q0)
                  = S (list_sum (List.map
                         (fun file => expansion_size (S depth) (buffer file))
                         (List.map (fun b => mkPathBuffer b (buffer_path q0))
                                   entries)))).
        { simpl. rewrite He. f_equal. f_equal.
          rewrite List.map_map. apply map_ext_in. intros entry Hin.
          simpl. symmetry. apply (expansion_size_stable depth).
          apply (proj1 (Forall_forall _ _) Hall). by apply list_elem_of_In. }
        lia.
    + apply IH; [exact Hrest|].
      rewrite (expansion_size_plain _ _ Hz) in Hfuel. lia.
Qed.

(** C8 (amended). Archive expansion is transitive. When the archives of
    the batch nest finitely deep and each of them extracts to something,
    [findInputFiles] returns, and what it returns is exactly what the inputs
    expand to: an archive found among the entries of an archive is expanded
    in turn, no archive is left in the result, and every file of the result
    carries the origin path of the input it came from. *)
Theorem archives_expand_transitively depth files :
  Forall (fun file => nests_within depth (buffer file)) files ->
  exists fuel inputFiles,
    findInputFiles fuel files = Some (inr inputFiles) /\
    (forall file,
       file ∈ inputFiles <-> exists top, top ∈ files /\ expands top file) /\
    Forall (fun file =>
              isZip (buffer file) = false /\
              exists top, top ∈ files /\ buffer_path file = buffer_path top)
           inputFiles.
Proof.
  intros Hnest.
  set (fuel := list_sum (List.map
                 (fun file => expansion_size depth (buffer file)) files)).
  destruct (findInputFiles_loop_terminates depth fuel 0 files [] Hnest)
    as [inputFiles Hloop]; [reflexivity|].
  exists fuel, inputFiles. split; [exact Hloop|].
  pose proof (findInputFiles_loop_spec _ _ _ _ _ Hloop) as Hspec.
  assert (Hiff : forall file,
            file ∈ inputFiles <-> exists top, top ∈ files /\ expands top file).
  { intros file. rewrite Hspec. split; [|by right].
    intros [H|H]; [by apply elem_of_nil in H|exact H]. }
  split; [exact Hiff|].
  apply Forall_forall. intros file Hin.
  apply Hiff in Hin as (top&Htop&Hex).
  destruct (expands_result _ _ Hex) as [Hz Hpath]. eauto.
Qed.

(** An archive without entries, met before any other archive, makes
    [findInputFiles] throw the error of a nonexistent path. *)
Lemma hollow_archive_throws fuel plain zippedFile rest archive :
  Forall (fun file => isZip (buffer file) = false) plain ->
  AdmZip (buffer zippedFile) = inr archive ->
  extractAllTo archive = inr None ->
  length plain < fuel ->
  findInputFiles fuel (plain ++ zippedFile :: rest)
    = Some (inl (Error (NONEXISTENT_PATH_MSG
                          ("tmp-unzipped-" +:+ Date_now (length plain))))).
Proof.
  intros Hplain Hz He. unfold findInputFiles.
  replace (length plain) with (0 + length plain) at 2 by lia.
  generalize 0 as i. generalize (@nil PathBuffer) as acc. revert fuel.
  induction Hplain as [|file plain Hf _ IH]; intros fuel acc i Hfuel.
  - destruct fuel as [|fuel]; [simpl in Hfuel; lia|].
    cbn [app findInputFiles_loop length]. unfold isZip at 1. rewrite Hz.
    rewrite (unzip_nothing _ _ _ _ Hz He). by rewrite Nat.add_0_r.
  - destruct fuel as [|fuel]; [simpl in Hfuel; lia|].
    cbn [app findInputFiles_loop]. rewrite Hf.
    rewrite IH by (simpl in Hfuel; lia).
    replace (S i + length plain) with (i + length (file :: plain))
      by (simpl; lia).
    reflexivity.
Qed.

(** *** Metadata scanning *)

(** What [extractMetadataFromString] returns passes [isMetadata]. *)
Lemma extractMetadataFromString_isMetadata file obj :
  extractMetadataFromString file = Some obj -> isMetadata obj = inr true.
Proof.
  unfold extractMetadataFromString. intros H.
  destruct (JSON_parse file) as [o|]; [|discriminate].
  destruct (isMetadata o) as [e|[|]] eqn:Ho; [discriminate|congruence|].
  destruct (JSON_parse (JS_String o)) as [o'|]; [|discriminate].
  destruct (isMetadata o') as [e|[|]] eqn:Ho'; congruence.
Qed.

(** A text in which no metadata is recognized is passed over. *)
Lemma scanMetadata_skip c p rest metadataCollection :
  metadataOf c = None ->
  scanMetadata (mkPathContent (Some c) p :: rest) metadataCollection
    = scanMetadata rest metadataCollection.
Proof. intros H. simpl. rewrite H. reflexivity. Qed.

(** A batch in which no metadata is recognized makes [findMetadataFiles]
    throw the error that names the missing metadata file. *)
Lemma no_metadata_is_fatal files :
  Forall (fun file => exists c, content file = Some c /\ metadataOf c = None)
         files ->
  findMetadataFiles files = inl (Error NO_METADATA_MSG).
Proof.
  intros H. unfold findMetadataFiles.
  assert (Hscan : forall acc, scanMetadata files acc = inr acc).
  { induction H as [|file rest (c&Hc&Hm) _ IH]; intros acc; [reflexivity|].
    simpl. rewrite Hc, Hm. apply IH. }
  rewrite Hscan. reflexivity.
Qed.

(** A recognized document whose [settings.compilationTarget] cannot be
    enumerated makes the scan throw a [TypeError], whatever else the batch
    holds after it. *)
Lemma scanMetadata_throws c p m rest metadataCollection :
  metadataOf c = Some m -> compilationTargetKeys m = inl TypeError ->
  scanMetadata (mkPathContent (Some c) p :: rest) metadataCollection
    = inl TypeError.
Proof. intros Hm Hk. simpl. rewrite Hm, Hk. reflexivity. Qed.
(** A batch in which no metadata is recognized makes the whole check throw
    that error, whatever else the batch holds. *)
Lemma checkFiles_no_metadata fuel files inputFiles trace :
  findInputFiles fuel files = Some (inr inputFiles) ->
  Forall (fun pathBuffer =>
            metadataOf (Buffer_toString (buffer pathBuffer)) = None)
         inputFiles ->
  checkFiles fuel files trace = Some (Threw (Error NO_METADATA_MSG)).
Proof.
  intros Hin Hnone. unfold checkFiles. rewrite Hin. f_equal.
  unfold checkInputFiles. rewrite no_metadata_is_fatal; [reflexivity|].
  clear Hin. induction Hnone as [|pathBuffer rest Hm _ IH]; simpl;
    constructor; eauto.
Qed.


(** ** Further properties of the reconciler *)

(** *** Which file the index keeps for a hash *)

Lemma storeByHash_from_spec i files byHash hash r :
  storeByHash_from i files byHash !! hash = Some r <->
  (exists j f c,
     r = i + j /\ files !! j = Some f /\ content f = Some c /\
     keccak256 c = hash /\
     forall j' g c', j < j' -> files !! j' = Some g -> content g = Some c' ->
                     keccak256 c' <> hash)
  \/
  (byHash !! hash = Some r /\
   forall j g c, files !! j = Some g -> content g = Some c -> keccak256 c <> hash).
Proof.
  revert i byHash. induction files as [|f rest IH]; intros i byHash.
  - simpl. split.
    + intros H. right. split; [exact H|]. intros j g c Hj. discriminate Hj.
    + intros [(j&g&c&_&Hj&_)|[H _]]; [discriminate Hj|exact H].
  - cbn [storeByHash_from]. rewrite IH. split.
    + intros [(j&g&c&->&Hj&Hc&Hk&Hlater)|[Hm Hnone]].
      * left. exists (S j), g, c. split; [lia|]. repeat split; try assumption.
        intros [|j'] g' c' Hlt Hj' Hc'; [lia|].
        apply (Hlater j' g' c'); [lia|exact Hj'|exact Hc'].
      * destruct (content f) as [c|] eqn:Hc.
        -- destruct (decide (keccak256 c = hash)) as [Hk|Hne].
           ++ rewrite Hk, lookup_insert_eq in Hm. injection Hm as <-.
              left. exists 0, f, c. split; [lia|]. repeat split; try assumption.
              intros [|j'] g' c' Hlt Hj' Hc'; [lia|]. by apply (Hnone j' g' c').
           ++ rewrite lookup_insert_ne in Hm by exact Hne.
              right. split; [exact Hm|].
              intros [|j] g c' Hj Hc'; [|by apply (Hnone j g c')].
              injection Hj as <-. congruence.
        -- right. split; [exact Hm|].
           intros [|j] g c' Hj Hc'; [|by apply (Hnone j g c')].
           injection Hj as <-. congruence.
    + intros [(j&g&c&->&Hj&Hc&Hk&Hlater)|[Hm Hnone]].
      * destruct j as [|j].
        -- injection Hj as <-. right. rewrite Hc, Hk, lookup_insert_eq.
           split; [f_equal; lia|].
           intros j g c' Hj Hc'. apply (Hlater (S j) g c'); [lia|exact Hj|exact Hc'].
        -- left. exists j, g, c. split; [lia|]. repeat split; try assumption.
           intros j' g' c' Hlt Hj' Hc'.
           apply (Hlater (S j') g' c'); [lia|exact Hj'|exact Hc'].
      * right. split.
        -- destruct (content f) as [c|] eqn:Hc; [|exact Hm].
           rewrite lookup_insert_ne; [exact Hm|].
           by apply (Hnone 0 f c).
        -- intros j g c Hj Hc. by apply (Hnone (S j) g c).
Qed.

(** X1. When several files of the batch have the same hash, the index keeps
    the last of them: [storeByHash(files)] maps a hash to the file at the
    greatest position whose text has that hash, and has no entry for a hash
    that no text has. *)
Theorem storeByHash_last_wins files hash r :
  storeByHash files !! hash = Some r <->
  (exists f c,
     files !! r = Some f /\ content f = Some c /\ keccak256 c = hash) /\
  (forall j g c, r < j -> files !! j = Some g -> content g = Some c ->
                 keccak256 c <> hash).
Proof.
  unfold storeByHash. rewrite storeByHash_from_spec. split.
  - intros [(j&f&c&->&Hj&Hc&Hk&Hlater)|[Hm _]].
    + split; [exists f, c; auto|]. exact Hlater.
    + by rewrite lookup_empty in Hm.
  - intros [(f&c&Hr&Hc&Hk) Hlater]. left. exists r, f, c. auto.
Qed.

(** *** The index is sound *)

Lemma content_at_app_l (h l : list PathContent) r :
  r < length h -> content_at (h ++ l) r = content_at h r.
Proof. intros H. unfold content_at. by rewrite lookup_app_l. Qed.


Lemma initial_index_sound files trace : index_sound (initial files trace).
Proof.
  intros hash r H. simpl in H.
  apply storeByHash_lookup in H as (f&c&Hf&Hc&Hk).
  exists c. split; [|exact Hk]. simpl. by rewrite (content_at_lookup _ _ _ Hf).
Qed.

Lemma step_index_sound st entry :
  index_valid st -> index_sound st -> index_sound (step st entry).
Proof.
  intros Hv Hs. destruct (thrown st) as [e0|] eqn:Hth;
    [by rewrite (step_thrown _ _ _ Hth)|].
  intros hash r. destruct entry as [fileName sourceInfo].
  assert (Hold : forall l, hash2file st !! hash = Some r ->
            exists c, content_at (heap st ++ l) r = Some c /\ keccak256 c = hash).
  { intros l Hr. destruct (Hs _ _ Hr) as (c&Hc&Hk). exists c.
    split; [|exact Hk]. rewrite content_at_app_l; [exact Hc|]. by eapply Hv. }
  destruct (step_cases st fileName sourceInfo Hth Hv)
    as [(c&_&_&_&->)|[(_&_&->)|[(_&_&_&->)|[(us&f&l&_&_&_&_&_&->)
       |[(us&c&l&Ht&Hx&_&Hp&Hc&->)|(us&e&l&_&_&_&_&->)]]]]];
    cbn [heap hash2file]; try (by apply Hold).
  rewrite Ht in *. apply processFetching_Some in Hp.
  set (h0 := heap st ++ [mkPathContent (src_content sourceInfo) None]) in *.
  set (file := default (length (heap st))
                 (hash2file st !! Some (keccak256_of sourceInfo))) in *.
  assert (Hfile : is_Some (h0 !! file)).
  { apply lookup_lt_is_Some. unfold h0, file. rewrite length_app. simpl.
    destruct (hash2file st !! Some (keccak256_of sourceInfo)) as [r'|] eqn:Hr';
      simpl; [specialize (Hv _ _ Hr'); lia|lia]. }
  destruct (decide (Some (keccak256_of sourceInfo) = hash)) as [<-|Hne].
  - rewrite lookup_insert_eq. intros [= <-]. exists c.
    split; [by apply content_at_set_content|exact Hp].
  - rewrite lookup_insert_ne by exact Hne. intros Hr.
    destruct (Hold [mkPathContent (src_content sourceInfo) None] Hr)
      as (c'&Hc'&Hk'). fold h0 in Hc'.
    exists c'. split; [|exact Hk'].
    assert (Hrf : r <> file).
    { intros ->. unfold file in Hr.
      destruct (hash2file st !! Some (keccak256_of sourceInfo)) as [r'|] eqn:Hr';
        simpl in Hr.
      - destruct (Hs _ _ Hr') as (c1&Hc1&Hk1). destruct (Hs _ _ Hr) as (c2&Hc2&Hk2).
        congruence.
      - specialize (Hv _ _ Hr). lia. }
    unfold content_at in *. rewrite set_content_other by congruence. exact Hc'.
Qed.

Lemma run_index_sound entries st :
  index_valid st -> index_sound st -> index_sound (fold_left step entries st).
Proof.
  revert st. induction entries as [|e rest IH]; intros st Hv Hs; [exact Hs|].
  simpl. apply IH; [by apply step_index_valid|by apply step_index_sound].
Qed.

(** *** What an iteration decides *)

(** The ways an iteration leaves its name: classified in one of three ways,
    each with what the entry and the classification say, or not classified,
    which takes the name [__proto__] or a loop that has thrown. *)
Lemma step_outcome st fileName sourceInfo :
  index_valid st -> index_sound st -> unclassified st fileName ->
  let hash := keccak256_of sourceInfo in
  let st' := step st (fileName, sourceInfo) in
  (classify st' fileName = Some (Invalid HASH_MISMATCH_MSG) /\
   exists c, src_content sourceInfo = Some c /\ c <> "" /\
             keccak256 c <> Some hash)
  \/
  (exists file c,
     classify st' fileName = Some (Found file) /\
     content file = Some c /\ c <> "" /\ keccak256 c = Some hash)
  \/
  (classify st' fileName = Some (Missing (mkMissingInfo hash (urls sourceInfo))) /\
   truthy (src_content sourceInfo) = false)
  \/
  (classify st' fileName = None /\ (fileName = PROTO \/ thrown st' <> None)).
Proof.
  intros Hv Hs Hun hash st'.
  assert (Hnonempty : forall c, truthy (Some c) = true -> c <> "").
  { intros c H. simpl in H. by apply negb_true_iff, String.eqb_neq in H. }
  subst st'.
  destruct (thrown st) as [e0|] eqn:Hth.
  { right. right. right. rewrite (step_thrown _ _ _ Hth).
    split; [by apply classify_unclassified|]. right. congruence. }
  destruct (decide (fileName = PROTO)) as [->|Hname].
  { right. right. right. split; [|by left].
    apply classify_unclassified.
    destruct (step_PROTO st (PROTO, sourceInfo) Hv) as (Hf&Hm&Hi).
    unfold unclassified. rewrite Hf, Hm, Hi. exact Hun. }
  destruct (step_cases st fileName sourceInfo Hth Hv)
    as [(c&Hc&Htc&Hk&->)|[(Hx&Hin&->)|[(Ht&_&Hu&->)|[(us&f&l&Ht&_&Hu&_&_&->)
       |[(us&c&l&Ht&Hx&_&Hp&Hc&->)|(us&e&l&_&_&_&_&->)]]]]].
  - left. split; [by apply classify_invalid|exists c; auto].
  - right. left.
    destruct (content_at_truthy _ _ Hx) as (file&Hfile&Htf).
    destruct (content file) as [c|] eqn:Hc; [|discriminate].
    exists file, c. split; [by apply classify_found|].
    split; [exact Hc|]. split; [apply Hnonempty; exact Htf|].
    destruct (truthy (src_content sourceInfo)) eqn:Ht.
    + rewrite lookup_app_r in Hfile by lia. rewrite Nat.sub_diag in Hfile.
      injection Hfile as <-. simpl in Hc. apply Hin; [exact Hc|exact Htf].
    + destruct (hash2file st !! Some (keccak256_of sourceInfo)) as [r|] eqn:Hr;
        simpl in Hfile.
      * destruct (Hs _ _ Hr) as (c'&Hc'&Hk').
        unfold content_at in Hc'.
        rewrite lookup_app_l in Hfile by (by eapply Hv).
        rewrite Hfile, Hc in Hc'. by injection Hc' as <-.
      * rewrite lookup_app_r in Hfile by lia. rewrite Nat.sub_diag in Hfile.
        injection Hfile as <-. simpl in Hc. rewrite Hc in Ht. congruence.
  - right. right. left. split; [|exact Ht]. rewrite Hu. by apply classify_missing.
  - right. right. left. split; [|exact Ht]. rewrite Hu. by apply classify_missing.
  - right. left. rewrite Ht in *.
    set (h0 := heap st ++ [mkPathContent (src_content sourceInfo) None]) in *.
    set (file := default (length (heap st))
                   (hash2file st !! Some (keccak256_of sourceInfo))) in *.
    assert (Hfile : is_Some (h0 !! file)).
    { apply lookup_lt_is_Some. unfold h0, file. rewrite length_app. simpl.
      destruct (hash2file st !! Some (keccak256_of sourceInfo)) as [r'|] eqn:Hr';
        simpl; [specialize (Hv _ _ Hr'); lia|lia]. }
    destruct Hfile as [f0 Hf0].
    exists (mkPathContent (Some c) (path f0)), c.
    split; [apply classify_found; [exact Hname|exact Hun|by apply set_content_same]|].
    split; [reflexivity|]. split; [by apply Hnonempty|].
    by apply processFetching_Some in Hp.
  - right. right. right. split; [|right; discriminate].
    by apply classify_unclassified.
Qed.

(** The outcome of the iteration of a name that occurs once is the
    classification of the name when the pass ends. *)
Lemma entry_outcome pre fileName sourceInfo post files trace :
  NoDup (pre ++ (fileName, sourceInfo) :: post).*1 ->
  let hash := keccak256_of sourceInfo in
  let final := rearrangeSources (pre ++ (fileName, sourceInfo) :: post) files trace in
  (classify final fileName = Some (Invalid HASH_MISMATCH_MSG) /\
   exists c, src_content sourceInfo = Some c /\ c <> "" /\
             keccak256 c <> Some hash)
  \/
  (exists file c,
     classify final fileName = Some (Found file) /\
     content file = Some c /\ c <> "" /\ keccak256 c = Some hash)
  \/
  (classify final fileName = Some (Missing (mkMissingInfo hash (urls sourceInfo))) /\
   truthy (src_content sourceInfo) = false)
  \/
  (classify final fileName = None /\ (fileName = PROTO \/ thrown final <> None)).
Proof.
  intros Hnd hash final.
  assert (Hth : thrown final = None ->
                thrown (step (fold_left step pre (initial files trace))
                             (fileName, sourceInfo)) = None).
  { intros H. by destruct (entry_reached _ _ _ _ _ H). }
  revert Hth. subst final. rewrite classify_entry by exact Hnd.
  destruct (before_entry _ _ _ _ files trace Hnd) as [Hv Hun].
  intros Hth.
  assert (Hs : index_sound (fold_left step pre (initial files trace))).
  { apply run_index_sound; [apply initial_index_valid|apply initial_index_sound]. }
  destruct (step_outcome (fold_left step pre (initial files trace))
              fileName sourceInfo Hv Hs Hun) as [H|[H|[H|[H [Hp|Hthrown]]]]];
    auto.
  - right. right. right. split; [exact H|]. by left.
  - right. right. right. split; [exact H|]. right.
    intros Hnone. apply Hthrown, Hth, Hnone.
Qed.


(** X3. A pass that returns classifies exactly the declared sources named
    otherwise than [__proto__], each once: such a name is in exactly one of
    the three result objects when it is declared; a name that is not
    declared, and the name [__proto__] declared or not, is in none. *)
Theorem declared_iff_classified sources files trace fileName :
  NoDup sources.*1 ->
  thrown (rearrangeSources sources files trace) = None ->
  (fileName ∈ sources.*1 /\ fileName <> PROTO) <->
  is_Some (classify (rearrangeSources sources files trace) fileName).
Proof.
  intros Hnd Hret. split.
  - intros [Hin Hname].
    apply list_elem_of_fmap in Hin as ([name sourceInfo]&->&Hin).
    apply list_elem_of_split in Hin as (pre&post&->). simpl in *.
    destruct (entry_outcome pre name sourceInfo post files trace Hnd)
      as [[-> _]|[(file'&c&->&_)|[[-> _]|[_ [H|H]]]]]; eauto; contradiction.
  - intros [c Hc]. split.
    + destruct (decide (fileName ∈ sources.*1)) as [|Hnot];
        [assumption|exfalso].
      pose proof (run_unclassified sources files trace fileName Hnot) as Hun.
      apply classify_unclassified in Hun. unfold rearrangeSources in Hc.
      congruence.
    + intros ->.
      pose proof (run_PROTO sources (initial files trace)
                    (initial_index_valid _ _) (initial_unclassified _ _ _)) as Hun.
      apply classify_unclassified in Hun. unfold rearrangeSources in Hc.
      congruence.
Qed.


(** *** The requests of a pass *)

Lemma derived_request_mono sources sources' url :
  (forall e, e ∈ sources -> e ∈ sources') ->
  derived_request sources url -> derived_request sources' url.
Proof.
  intros Hsub (fileName&sourceInfo&us&Hin&H). exists fileName, sourceInfo, us.
  split; [by apply Hsub|exact H].
Qed.

Lemma requestedUrl_derived fileName sourceInfo us url :
  truthy (src_content sourceInfo) = false -> urls sourceInfo = Some us ->
  requestedUrl fileName us = Some url ->
  derived_request [(fileName, sourceInfo)] url.
Proof.
  intros Ht Hu Hreq. exists fileName, sourceInfo, us.
  split; [apply list_elem_of_here|]. split; [exact Ht|]. split; [exact Hu|].
  unfold requestedUrl in Hreq.
  destruct (GITHUB_REGEX_test (trim fileName)); [left; split; congruence|].
  destruct (startsWith (trim fileName) OPENZEPPELIN_SCOPE); [|discriminate].
  right. split; [reflexivity|].
  destruct (firstIpfsUrl us) as [declared|] eqn:Hfirst; [|discriminate].
  injection Hreq as <-. apply find_some in Hfirst as [Hin Hp].
  exists declared. split; [by apply list_elem_of_In|]. split; [exact Hp|reflexivity].
Qed.


(** An iteration makes no request, or one that is derived from its entry. *)
Lemma step_requests st fileName sourceInfo :
  index_valid st ->
  requests (step st (fileName, sourceInfo)) = requests st \/
  exists url,
    requests (step st (fileName, sourceInfo)) = requests st ++ [url] /\
    derived_request [(fileName, sourceInfo)] url.
Proof.
  intros Hv. destruct (thrown st) as [e0|] eqn:Hth;
    [left; by rewrite (step_thrown _ _ _ Hth)|].
  assert (Hp : forall us fetched trace',
            truthy (src_content sourceInfo) = false -> urls sourceInfo = Some us ->
            processFetching (requests st) fileName us (keccak256_of sourceInfo)
              = (fetched, trace') ->
            trace' = requests st \/
            exists url, trace' = requests st ++ [url] /\
                        derived_request [(fileName, sourceInfo)] url).
  { intros us fetched trace' Ht Hu H. rewrite processFetching_requestedUrl in H.
    destruct (requestedUrl fileName us) as [url|] eqn:Hreq.
    - right. exists url. split; [|by eapply requestedUrl_derived].
      pose proof (performFetch_requests (requests st) (trim fileName) url
                    (keccak256_of sourceInfo)) as Hr.
      by rewrite H in Hr.
    - left. by injection H as _ <-. }
  destruct (step_cases st fileName sourceInfo Hth Hv)
    as [(c&_&_&_&->)|[(_&_&->)|[(_&_&_&->)|[(us&f&l&Ht&_&Hu&H&_&->)
       |[(us&c&l&Ht&_&Hu&H&_&->)|(us&e&l&Ht&_&Hu&H&->)]]]]];
    cbn [requests]; eauto.
Qed.

Lemma run_requests entries st :
  index_valid st ->
  exists new,
    requests (fold_left step entries st) = requests st ++ new /\
    length new <= length entries /\
    Forall (derived_request entries) new.
Proof.
  revert st. induction entries as [|[fileName sourceInfo] rest IH]; intros st Hv.
  - exists []. simpl. rewrite app_nil_r. auto.
  - cbn [fold_left].
    destruct (IH (step st (fileName, sourceInfo))) as (new&Hnew&Hlen&Hall);
      [by apply step_index_valid|].
    assert (Hrest : Forall (derived_request ((fileName, sourceInfo) :: rest)) new).
    { eapply Forall_impl; [exact Hall|]. intros url.
      apply derived_request_mono. intros e He. by right. }
    destruct (step_requests st fileName sourceInfo Hv) as [Hs|(url&Hs&Hd)].
    + exists new. rewrite Hnew, Hs. simpl. split; [reflexivity|]. split; [lia|].
      exact Hrest.
    + exists (url :: new). rewrite Hnew, Hs, <- app_assoc. simpl.
      split; [reflexivity|]. split; [lia|]. constructor; [|exact Hrest].
      eapply derived_request_mono; [|exact Hd]. intros e He.
      apply list_elem_of_singleton in He as ->. left.
Qed.

(** X5. A pass only adds to the requests made before it, at most one request
    per declared source, and every URL it requests is derived from a declared
    source without inline content: the rewriting of a path that matches the
    GitHub pattern, or the gateway URL of a declared IPFS URL of a path in the
    package scope. No declared URL is requested as it stands. *)
Theorem requests_of_a_pass sources files trace :
  exists new,
    requests (rearrangeSources sources files trace) = trace ++ new /\
    length new <= length sources /\
    Forall (derived_request sources) new.
Proof.
  exact (run_requests sources (initial files trace) (initial_index_valid _ _)).
Qed.


(** *** The URL a GitHub path is rewritten to *)

(** X6. A path that matches [GITHUB_REGEX] is a scheme, [http] or [https],
    then [://github], one character that is no line terminator, [com], and
    anything; its raw URL is the same with [github] turned into
    [raw.githubusercontent]. The character after [github] and what follows
    [com] are kept as they are. *)
Theorem github_path_rewriting (s : string) :
  GITHUB_REGEX_test s = true ->
  exists scheme c rest,
    (scheme = "http" \/ scheme = "https") /\
    is_line_terminator c = false /\
    s = scheme +:+ "://github" +:+ String c ("com" +:+ rest) /\
    replace "github" "raw.githubusercontent" s
      = scheme +:+ "://raw.githubusercontent" +:+ String c ("com" +:+ rest).
Proof.
  unfold GITHUB_REGEX_test. cbv zeta.
  assert (Hhost : forall r,
            match after "://github" r with
            | Some (String c r') =>
                negb (is_line_terminator c) && String.prefix "com" r'
            | _ => false
            end = true ->
            exists c rest, is_line_terminator c = false /\
                           r = "://github" +:+ String c ("com" +:+ rest)).
  { intros r H. destruct (after "://github" r) as [[|c r']|] eqn:Ha;
      try discriminate.
    apply andb_true_iff in H as [Hc Hcom]. apply negb_true_iff in Hc.
    apply prefix_split in Hcom as [rest ->]. apply after_Some in Ha.
    exists c, rest. split; [exact Hc|exact Ha]. }
  destruct (after "http" s) as [r|] eqn:Hhttp; [|discriminate].
  apply after_Some in Hhttp as ->.
  destruct (after "s" r) as [r'|] eqn:Hs.
  - apply after_Some in Hs as ->. intros H. apply orb_true_iff in H as [H|H].
    + destruct (Hhost _ H) as (c&rest&Hc&->).
      exists "https", c, rest. split; [by right|]. split; [exact Hc|].
      split; reflexivity.
    + exfalso. destruct r'; discriminate H.
  - intros H. destruct (Hhost _ H) as (c&rest&Hc&->).
    exists "http", c, rest. split; [by left|]. split; [exact Hc|].
    split; reflexivity.
Qed.


(** *** What a pass does to the files of the batch *)

Lemma step_object st entry r f :
  index_valid st -> index_sound st -> heap st !! r = Some f ->
  exists f',
    heap (step st entry) !! r = Some f' /\ path f' = path f /\
    (f' = f \/
     (content f = Some "" /\
      exists c, content f' = Some c /\ c <> "" /\ keccak256 c = keccak256 "")).
Proof.
  intros Hv Hs Hf. destruct (thrown st) as [e0|] eqn:Hth;
    [rewrite (step_thrown _ _ _ Hth); eauto|].
  destruct entry as [fileName sourceInfo].
  assert (Hr : r < length (heap st)) by (by eapply lookup_lt_Some).
  destruct (step_cases st fileName sourceInfo Hth Hv)
    as [(c&_&_&_&->)|[(_&_&->)|[(_&_&_&->)|[(us&f0&l&_&_&_&_&_&->)
       |[(us&c&l&Ht&Hx&_&Hp&Hc&->)|(us&e&l&_&_&_&_&->)]]]]]; cbn [heap];
    try (exists f; split; [by apply lookup_app_l_Some|auto]).
  rewrite Ht in *.
  set (file := default (length (heap st))
                 (hash2file st !! Some (keccak256_of sourceInfo))) in *.
  destruct (decide (file = r)) as [Heq|Hne].
  - exists (mkPathContent (Some c) (path f)).
    split; [rewrite Heq; apply set_content_same; by apply lookup_app_l_Some|].
    split; [reflexivity|]. right.
    unfold file in Heq.
    destruct (hash2file st !! Some (keccak256_of sourceInfo)) as [r'|] eqn:Hr';
      simpl in Heq; [subst r'|lia].
    destruct (Hs _ _ Hr') as (c0&Hc0&Hk0).
    rewrite (content_at_lookup _ _ _ Hf) in Hc0.
    unfold file in Hx. simpl in Hx.
    rewrite content_at_app_l in Hx by exact Hr.
    rewrite (content_at_lookup _ _ _ Hf), Hc0 in Hx. simpl in Hx.
    apply negb_false_iff, String.eqb_eq in Hx. subst c0.
    split; [exact Hc0|]. exists c. split; [reflexivity|].
    split; [simpl in Hc; by apply negb_true_iff, String.eqb_neq in Hc|].
    apply processFetching_Some in Hp. congruence.
  - exists f. split; [|auto].
    rewrite set_content_other by exact Hne. by apply lookup_app_l_Some.
Qed.

Lemma run_object entries st r f :
  index_valid st -> index_sound st -> heap st !! r = Some f ->
  exists f',
    heap (fold_left step entries st) !! r = Some f' /\ path f' = path f /\
    (f' = f \/
     (content f = Some "" /\
      exists c, content f' = Some c /\ c <> "" /\ keccak256 c = keccak256 "")).
Proof.
  revert st. induction entries as [|e rest IH]; intros st Hv Hs Hf.
  - exists f. auto.
  - cbn [fold_left].
    destruct (step_object st e r f Hv Hs Hf) as (f1&Hf1&Hp1&[->|Hchanged]).
    + apply IH; [by apply step_index_valid|by apply step_index_sound|exact Hf1].
    + exists f1. split; [|split; [exact Hp1|by right]].
      apply (run_frozen rest (step st e)); [by apply step_index_valid|exact Hf1|].
      destruct Hchanged as (_&c&->&Hc&_). simpl.
      by apply negb_true_iff, String.eqb_neq.
Qed.

(** X7. A pass leaves the files of the batch as they are: every file keeps
    its path, and it keeps its text unless the text is empty and a fetch
    brought content with the hash of the empty text, which the file then
    receives. *)
Theorem files_after_a_pass sources files trace i f :
  files !! i = Some f ->
  exists f',
    heap (rearrangeSources sources files trace) !! i = Some f' /\
    path f' = path f /\
    (f' = f \/
     (content f = Some "" /\
      exists c, content f' = Some c /\ c <> "" /\ keccak256 c = keccak256 "")).
Proof.
  intros Hf. apply run_object;
    [apply initial_index_valid|apply initial_index_sound|exact Hf].
Qed.


(** *** Sources that carry their content *)



(** ** Further properties of scanning, expansion and the whole check *)

(** *** What [findMetadataFiles] returns *)

Lemma metadataOf_isMetadata c m : metadataOf c = Some m -> isMetadata m = inr true.
Proof.
  unfold metadataOf. intros H.
  destruct (extractMetadataFromString c) as [m'|] eqn:He.
  - injection H as <-. by eapply extractMetadataFromString_isMetadata.
  - destruct (NESTED_METADATA_match c) as [matched|]; [|discriminate].
    by eapply extractMetadataFromString_isMetadata.
Qed.

Lemma scanMetadata_result files metadataCollection l :
  scanMetadata files metadataCollection = inr l ->
  l = metadataCollection ++ omap (fun file => content file ≫= metadataOf) files /\
  Forall (fun m => compilationTargetKeys m = inr tt)
         (omap (fun file => content file ≫= metadataOf) files).
Proof.
  revert metadataCollection.
  induction files as [|file rest IH]; intros acc H.
  - injection H as <-. simpl. by rewrite app_nil_r.
  - simpl in H. destruct (content file) as [c|] eqn:Hc; [|discriminate].
    cbn [omap list_omap]. rewrite Hc. simpl.
    destruct (metadataOf c) as [m|] eqn:Hm.
    + destruct (compilationTargetKeys m) as [e|[]] eqn:Hk; [discriminate|].
      apply IH in H as [-> Hall]. rewrite <- app_assoc. split; [reflexivity|].
      by constructor.
    + by apply IH in H.
Qed.

Lemma findMetadataFiles_nonempty files l :
  findMetadataFiles files = inr l -> l <> [].
Proof.
  unfold findMetadataFiles.
  destruct (scanMetadata files []) as [e|[|m l']]; intros [= <-]. discriminate.
Qed.

(** X9. When [findMetadataFiles] returns, it returns at least one document;
    the documents are those recognized in the texts of the batch, in the order
    of the batch, one per file at most; each of them passes [isMetadata] and
    has a [settings.compilationTarget] that can be enumerated. *)
Theorem findMetadataFiles_result files l :
  findMetadataFiles files = inr l ->
  l <> [] /\
  l = omap (fun file => content file ≫= metadataOf) files /\
  Forall (fun m => isMetadata m = inr true /\ compilationTargetKeys m = inr tt) l.
Proof.
  unfold findMetadataFiles. intros H.
  destruct (scanMetadata files []) as [e|l'] eqn:Hscan; [discriminate|].
  destruct l' as [|m l']; [discriminate|]. injection H as <-.
  apply scanMetadata_result in Hscan as [Hl Hall]. simpl in Hl.
  split; [discriminate|]. split; [exact Hl|].
  rewrite Hl. apply Forall_forall. intros m' Hin. split.
  - apply list_elem_of_omap in Hin as (file&_&Hm).
    destruct (content file) as [c|]; [|discriminate]. simpl in Hm.
    by eapply metadataOf_isMetadata.
  - by apply (proj1 (Forall_forall _ _) Hall).
Qed.


(** *** A batch without archives *)

Lemma findInputFiles_loop_plain fuel i queue inputFiles :
  Forall (fun file => isZip (buffer file) = false) queue ->
  length queue <= fuel ->
  findInputFiles_loop fuel i queue inputFiles = Some (inr (inputFiles ++ queue)).
Proof.
  intros H. revert fuel i inputFiles.
  induction H as [|file rest Hz _ IH]; intros fuel i acc Hfuel.
  - destruct fuel; simpl; by rewrite app_nil_r.
  - destruct fuel as [|fuel]; [simpl in Hfuel; lia|].
    simpl. rewrite Hz, IH by (simpl in Hfuel; lia).
    by rewrite <- app_assoc.
Qed.

(** X10. A batch that holds no archive passes [findInputFiles] unchanged:
    the same files, in the same order, with their paths. *)
Theorem findInputFiles_without_archives fuel files :
  Forall (fun file => isZip (buffer file) = false) files ->
  length files <= fuel ->
  findInputFiles fuel files = Some (inr files).
Proof.
  intros H Hfuel. unfold findInputFiles.
  by rewrite findInputFiles_loop_plain.
Qed.

(** *** The contracts of a check *)

Lemma rearrangeEntries_requests entries st st' :
  index_valid st ->
  rearrangeEntries entries st = Returned st' ->
  index_valid st' /\ exists new, requests st' = requests st ++ new.
Proof.
  revert st. induction entries as [|[fileName v] rest IH]; intros st Hv H.
  - injection H as <-. split; [exact Hv|]. exists []. by rewrite app_nil_r.
  - cbn [rearrangeEntries] in H.
    destruct (sourceInfo_of v) as [sourceInfo| |]; try discriminate.
    cbv zeta in H.
    destruct (thrown (step st (fileName, sourceInfo))); [discriminate|].
    apply IH in H as [Hv' (new&->)]; [|by apply step_index_valid].
    split; [exact Hv'|].
    destruct (step_requests st fileName sourceInfo Hv) as [->|(url&->&_)].
    + by exists new.
    + exists (url :: new). by rewrite <- app_assoc.
Qed.

Lemma checkAll_contracts metadataFiles parsedFiles trace checkedContracts cs trace' :
  checkAll metadataFiles parsedFiles trace checkedContracts = Returned (cs, trace') ->
  metadata <$> cs = (metadata <$> checkedContracts) ++ metadataFiles /\
  exists new, trace' = trace ++ new.
Proof.
  revert parsedFiles trace checkedContracts.
  induction metadataFiles as [|m rest IH]; intros parsedFiles trace acc H.
  - injection H as <- <-.
    split; [by rewrite app_nil_r|exists []; by rewrite app_nil_r].
  - cbn [checkAll] in H.
    destruct (rearrangeSources_any m parsedFiles trace) as [st| |] eqn:Hpass;
      try discriminate.
    apply IH in H as [-> (new&->)]. rewrite fmap_app, <- app_assoc. simpl.
    split; [reflexivity|].
    unfold rearrangeSources_any in Hpass.
    destruct (sources_of m) as [entries| |]; try discriminate.
    apply rearrangeEntries_requests in Hpass as [_ (new'&->)];
      [|apply initial_index_valid].
    simpl. exists (new' ++ new). by rewrite app_assoc.
Qed.

(** X11. When the check of a batch returns, it returns one contract per
    metadata document that [findMetadataFiles] recognized, in the same order
    and at least one, each holding its document; the requests made before the
    check are a prefix of the requests made when it ends. *)
Theorem checkInputFiles_contracts inputFiles trace cs trace' :
  checkInputFiles inputFiles trace = Returned (cs, trace') ->
  let parsedFiles :=
    List.map (fun pathBuffer =>
                mkPathContent (Some (Buffer_toString (buffer pathBuffer)))
                              (buffer_path pathBuffer)) inputFiles in
  findMetadataFiles parsedFiles = inr (metadata <$> cs) /\
  cs <> [] /\
  exists new, trace' = trace ++ new.
Proof.
  intros H parsedFiles. unfold checkInputFiles in H. fold parsedFiles in H.
  destruct (findMetadataFiles parsedFiles) as [e|ms] eqn:Hfind; [discriminate|].
  apply checkAll_contracts in H as [Hms Hnew]. simpl in Hms. subst ms.
  split; [reflexivity|]. split; [|exact Hnew].
  apply findMetadataFiles_nonempty in Hfind.
  intros ->. by apply Hfind.
Qed.


(** *** A source entry that is [null] *)

Lemma rearrangeEntries_null pre fileName post st0 :
  Forall (fun e => exists sourceInfo, sourceInfo_of e.2 = Returned sourceInfo) pre ->
  (exists e, rearrangeEntries (pre ++ (fileName, JNull) :: post) st0 = Threw e) /\
  (forall st, rearrangeEntries pre st0 = Returned st ->
              rearrangeEntries (pre ++ (fileName, JNull) :: post) st0
                = Threw TypeError).
Proof.
  intros Hpre. revert st0.
  induction Hpre as [|[name v] rest (sourceInfo&Hv) _ IH]; intros st0.
  - split; [by exists TypeError|reflexivity].
  - cbn [app rearrangeEntries]. simpl in Hv. rewrite Hv. cbv zeta.
    destruct (thrown (step st0 (name, sourceInfo))) as [e|].
    + split; [by exists e|discriminate].
    + apply IH.
Qed.

(** X12. A [null] among the values of [metadata.sources] makes the pass
    throw, so that it returns no classification at all, for any entry: it
    throws the [TypeError] of reading a property of [null] once the entries
    before it have been gone through, unless a request made for one of them
    was rejected, which is then what the pass throws, earlier. *)
Theorem null_source_entry_throws metadata pre fileName post files trace :
  sources_of metadata = Returned (pre ++ (fileName, JNull) :: post) ->
  Forall (fun e => exists sourceInfo, sourceInfo_of e.2 = Returned sourceInfo) pre ->
  (exists e, rearrangeSources_any metadata files trace = Threw e) /\
  (forall st, rearrangeEntries pre (initial files trace) = Returned st ->
              rearrangeSources_any metadata files trace = Threw TypeError).
Proof.
  intros Hsrc Hpre. unfold rearrangeSources_any. rewrite Hsrc.
  by apply rearrangeEntries_null.
Qed.

(** *** The nested-metadata pattern *)

Lemma append_assoc (a b c : string) : (a +:+ b) +:+ c = a +:+ (b +:+ c).
Proof.
  induction a as [|x a IH]; [reflexivity|].
  change (String x ((a +:+ b) +:+ c) = String x (a +:+ (b +:+ c))).
  f_equal. exact IH.
Qed.

Lemma after_append (p r : string) : after p (p +:+ r) = Some r.
Proof. unfold after. by rewrite prefix_append, slice_append. Qed.

Lemma lazy_until_unfold tail s :
  lazy_until tail s =
    if String.prefix tail s then Some tail
    else match s with
         | EmptyString => None
         | String c r =>
             if is_line_terminator c then None
             else option_map (String c) (lazy_until tail r)
         end.
Proof. destruct s; reflexivity. Qed.

Lemma lazy_until_sound tail s m :
  lazy_until tail s = Some m ->
  exists mid rest, m = mid +:+ tail /\ s = m +:+ rest /\ one_line mid = true.
Proof.
  revert m. induction s as [|c r IH]; intros m; rewrite lazy_until_unfold.
  - destruct (String.prefix tail "") eqn:Hp; [|discriminate].
    intros [= <-]. apply prefix_split in Hp as [rest Hrest].
    exists "", rest. auto.
  - destruct (String.prefix tail (String c r)) eqn:Hp.
    + intros [= <-]. apply prefix_split in Hp as [rest Hrest].
      exists "", rest. auto.
    + destruct (is_line_terminator c) eqn:Hc; [discriminate|].
      destruct (lazy_until tail r) as [m'|]; [|discriminate].
      intros [= <-]. destruct (IH m' eq_refl) as (mid&rest&->&->&Hmid).
      exists (String c mid), rest. simpl. rewrite Hc, Hmid. auto.
Qed.

Lemma lazy_until_complete tail mid rest :
  one_line mid = true -> is_Some (lazy_until tail (mid +:+ tail +:+ rest)).
Proof.
  induction mid as [|c mid IH]; intros Hmid; rewrite lazy_until_unfold.
  - change ("" +:+ tail +:+ rest) with (tail +:+ rest).
    rewrite prefix_append. eauto.
  - destruct (String.prefix tail (String c mid +:+ tail +:+ rest)); [eauto|].
    change (String c mid +:+ tail +:+ rest)
      with (String c (mid +:+ tail +:+ rest)).
    cbn [one_line] in Hmid. apply andb_true_iff in Hmid as [Hc Hmid].
    apply negb_true_iff in Hc. rewrite Hc.
    destruct (IH Hmid) as [m ->]. simpl. eauto.
Qed.

Lemma NESTED_METADATA_match_unfold s :
  NESTED_METADATA_match s =
    match (match after NESTED_METADATA_HEAD s with
           | Some r => option_map (String.append NESTED_METADATA_HEAD)
                         (lazy_until NESTED_METADATA_TAIL r)
           | None => None
           end) with
    | Some m => Some m
    | None =>
        match s with
        | EmptyString => None
        | String _ r => NESTED_METADATA_match r
        end
    end.
Proof. destruct s; reflexivity. Qed.

Lemma match_here_sound s m :
  match after NESTED_METADATA_HEAD s with
  | Some r => option_map (String.append NESTED_METADATA_HEAD)
                (lazy_until NESTED_METADATA_TAIL r)
  | None => None
  end = Some m ->
  exists mid rest,
    s = m +:+ rest /\
    m = NESTED_METADATA_HEAD +:+ mid +:+ NESTED_METADATA_TAIL /\
    one_line mid = true.
Proof.
  destruct (after NESTED_METADATA_HEAD s) as [r0|] eqn:Ha; [|discriminate].
  destruct (lazy_until NESTED_METADATA_TAIL r0) as [m0|] eqn:Hl; [|discriminate].
  intros [= <-]. apply after_Some in Ha.
  apply lazy_until_sound in Hl as (mid&rest&->&->&Hmid).
  exists mid, rest. split; [|auto]. rewrite append_assoc. exact Ha.
Qed.

(** X13. [NESTED_METADATA_REGEX] finds a match exactly in the texts that
    hold, somewhere, the head of the pattern, a run of characters without a
    line terminator, and the tail of the pattern; what it returns is such a
    piece of the text. *)
Theorem NESTED_METADATA_match_spec (s : string) :
  (forall m,
     NESTED_METADATA_match s = Some m ->
     exists before mid rest,
       s = before +:+ m +:+ rest /\
       m = NESTED_METADATA_HEAD +:+ mid +:+ NESTED_METADATA_TAIL /\
       one_line mid = true) /\
  (forall before mid rest,
     s = before +:+ NESTED_METADATA_HEAD +:+ mid +:+ NESTED_METADATA_TAIL +:+ rest ->
     one_line mid = true ->
     is_Some (NESTED_METADATA_match s)).
Proof.
  split.
  - induction s as [|c r IH]; intros m; rewrite NESTED_METADATA_match_unfold.
    + destruct (match after NESTED_METADATA_HEAD "" with
                | Some r => _ | None => None end) as [m0|] eqn:Hhere;
        [|discriminate].
      intros [= <-]. apply match_here_sound in Hhere as (mid&rest&Hs&Hm&Hmid).
      exists "", mid, rest. auto.
    + destruct (match after NESTED_METADATA_HEAD (String c r) with
                | Some r => _ | None => None end) as [m0|] eqn:Hhere.
      * intros [= <-]. apply match_here_sound in Hhere as (mid&rest&Hs&Hm&Hmid).
        exists "", mid, rest. auto.
      * intros H. destruct (IH m H) as (before&mid&rest&->&->&Hmid).
        exists (String c before), mid, rest. auto.
  - intros before. revert s.
    induction before as [|c before IH]; intros s mid rest -> Hmid;
      rewrite NESTED_METADATA_match_unfold.
    + change ("" +:+ ?x) with x. rewrite after_append.
      destruct (lazy_until_complete NESTED_METADATA_TAIL mid rest Hmid) as [m ->].
      simpl. eauto.
    + match goal with
      | |- is_Some (match ?x with Some m => Some m | None => _ end) =>
          destruct x; [eauto|]
      end.
      change (String c before +:+ ?x) with (String c (before +:+ x)).
      cbv iota. by eapply IH.
Qed.


(** *** Traversing paths *)




(** X15. Paths with nothing behind them do not disturb [checkPaths]: what
    it collects, or the error it throws, is what it collects or throws for the
    paths that exist, whether or not an [ignoring] array is given; and when it
    collects, the [ignoring] array has received the paths that do not exist,
    in their order. *)
Theorem collectPaths_ignores_absent fs paths files ignoring :
  fst (collectPaths fs paths files ignoring)
    = fst (collectPaths fs (List.filter (fun p => existsSync (fs p)) paths)
                        files None) /\
  (forall collected,
     fst (collectPaths fs paths files ignoring) = inr collected ->
     snd (collectPaths fs paths files ignoring)
       = (fun l => l ++ List.filter (fun p => negb (existsSync (fs p))) paths)
           <$> ignoring).
Proof.
  revert files ignoring. induction paths as [|path rest IH]; intros files ignoring.
  - simpl. split; [reflexivity|]. intros _ _.
    destruct ignoring; simpl; [by rewrite app_nil_r|reflexivity].
  - cbn [collectPaths List.filter]. destruct (existsSync (fs path)) eqn:He.
    + cbn [collectPaths negb]. rewrite He.
      destruct (traversePathRecursively path (fs path)) as [e|vs].
      * split; [reflexivity|]. intros collected H. discriminate H.
      * apply IH.
    + simpl negb. cbv iota.
      destruct (IH files ((fun l => l ++ [path]) <$> ignoring)) as [-> Hig].
      split; [reflexivity|]. intros collected H.
      rewrite (Hig collected) by exact H.
      destruct ignoring; simpl; [by rewrite <- app_assoc|reflexivity].
Qed.
End Service.

Arguments isZip {zip} AdmZip file.
Arguments unzip Path_join {zip} AdmZip extractAllTo timestamp zippedFile files.
Arguments findInputFiles_loop Path_join {zip} AdmZip extractAllTo Date_now
  fuel i queue inputFiles.
Arguments findInputFiles Path_join {zip} AdmZip extractAllTo Date_now fuel files.
Arguments archive_entries {zip} AdmZip extractAllTo b.
Arguments expands {zip} AdmZip extractAllTo _ _.
Arguments nests_within {zip} AdmZip extractAllTo depth b.
Arguments expansion_size {zip} AdmZip extractAllTo depth b.
Arguments checkFiles keccak256 fetch JSON_parse Path_join {zip} AdmZip
  extractAllTo Date_now Buffer_toString fuel files trace.
Arguments checkPaths keccak256 fetch JSON_parse Path_join Path_resolve {zip}
  AdmZip extractAllTo Date_now Buffer_toString fuel fs paths ignoring trace.

(** ** The service on sample inputs *)

Import Sample.

(** The digest on two published test vectors of Keccak-256, and what
    [Web3.utils.keccak256] makes of three texts: the hash of the characters
    of a text, [null] for the empty text, and for a hexadecimal literal the
    hash of the bytes it denotes, not of its characters. *)
Example keccak256_empty :
  Keccak.keccak256 "" =
  "0xc5d2460186f7233c927e7db2dcc703c0e500b653ca82273b7bfad8045d85a470".
Proof. vm_compute. reflexivity. Qed.

Example keccak256_abc :
  Keccak.keccak256 "abc" =
  "0x4e03657aea45a94fc7d47ba826c8d667c0d1e6e33a64a036ec44f58fa12d6c45".
Proof. vm_compute. reflexivity. Qed.

Example web3_keccak256_samples :
  Web3.keccak256 STORAGE_SOL = Some (Keccak.keccak256 STORAGE_SOL) /\
  Web3.keccak256 "" = None /\
  Web3.keccak256 "0x" = None /\
  Web3.keccak256 "0x1234" =
    Some "0x56570de287d73cd1cb6092bb8fdee6173974955fdef345ae579ee9f475ea7432" /\
  Keccak.keccak256 "0x1234" =
    "0x1ac7d1b81b7ba1025b36ccb86723da6ee5a87259f1c2fd5abe69d3200b512ec8".
Proof. repeat split; vm_compute; reflexivity. Qed.

(** A batch like that of the test "should succeed for single source file":
    one file whose text has the declared hash, under an unrelated origin
    path. *)
Example storage_source_is_found :
  exists file c,
    classify (rearrangeSources Web3.keccak256 offline
                [("browser/1_Storage.sol", mkSourceInfo None STORAGE_HASH None)]
                [mkPathContent (Some STORAGE_SOL) (Some "/tmp/upload-3f9a")] [])
             "browser/1_Storage.sol" = Some (Found file) /\
    file ∈ [mkPathContent (Some STORAGE_SOL) (Some "/tmp/upload-3f9a")] /\
    content file = Some c /\ Web3.keccak256 c = Some STORAGE_HASH.
Proof.
  apply (hash_match_is_found Web3.keccak256 offline
           [("browser/1_Storage.sol", mkSourceInfo None STORAGE_HASH None)]
           [mkPathContent (Some STORAGE_SOL) (Some "/tmp/upload-3f9a")] []
           "browser/1_Storage.sol" (mkSourceInfo None STORAGE_HASH None)
           (mkPathContent (Some STORAGE_SOL) (Some "/tmp/upload-3f9a"))
           STORAGE_SOL).
  - vm_compute. reflexivity.
  - apply NoDup_singleton.
  - apply list_elem_of_here.
  - discriminate.
  - reflexivity.
  - apply list_elem_of_here.
  - reflexivity.
  - vm_compute. reflexivity.
  - vm_compute. reflexivity.
Qed.

(** C1. Three batches in which a candidate file has the declared hash and
    the declared source does not come out Found. In the first the source
    file is named [__proto__]: the check returns a contract whose found,
    missing and invalid sources are all without an entry, the candidate
    having become the prototype of the object of found sources. In the
    second the text of the candidate is a hexadecimal literal, and the
    declared hash the Keccak-256 of its characters: the index has the
    candidate under another key, and the source is Missing. In the third the
    candidate is the empty file, which the index holds under no hash at all,
    and the source is Missing. *)
Theorem hash_match_is_not_found :
  (let candidate := mkPathContent (Some STORAGE_SOL) (Some "Storage.sol") in
   let final :=
     rearrangeSources Web3.keccak256 offline
       [("__proto__", mkSourceInfo None STORAGE_HASH None)] [candidate] [] in
   Web3.keccak256 STORAGE_SOL = Some STORAGE_HASH /\
   thrown final = None /\
   classify final "__proto__" = None /\
   own (foundSources final) = ∅ /\ proto (foundSources final) = Some 0 /\
   own (missingSources final) = ∅ /\ invalidSources final = ∅ /\
   checkFiles Web3.keccak256 offline parse join no_archive extract clock toString 2
     [mkPathBuffer (bytes PROTO_TEXT) (Some "metadata.json");
      mkPathBuffer (bytes STORAGE_SOL) (Some "Storage.sol")] []
   = Some (Returned
             ([mkCheckedContract PROTO_JSON
                 (mkDictionary ∅ (Some candidate)) (mkDictionary ∅ None) ∅],
              []))) /\
  (let candidate := mkPathContent (Some HEX_TEXT) (Some "Literal.sol") in
   let final :=
     rearrangeSources Web3.keccak256 offline
       [("Literal.sol", mkSourceInfo None HEX_TEXT_HASH None)] [candidate] [] in
   Keccak.keccak256 HEX_TEXT = HEX_TEXT_HASH /\
   thrown final = None /\
   classify final "Literal.sol"
     = Some (Missing (mkMissingInfo HEX_TEXT_HASH None))) /\
  (let candidate := mkPathContent (Some "") (Some "Empty.sol") in
   let final :=
     rearrangeSources Web3.keccak256 offline
       [("Empty.sol", mkSourceInfo None EMPTY_HASH None)] [candidate] [] in
   Keccak.keccak256 "" = EMPTY_HASH /\
   Web3.keccak256 "" = None /\
   thrown final = None /\
   classify final "Empty.sol"
     = Some (Missing (mkMissingInfo EMPTY_HASH None))).
Proof. repeat split; vm_compute; reflexivity. Qed.



(** C3, witness. A path that is neither a GitHub URL nor in the package
    scope, with a declared URL the transport would serve. *)
Lemma fetch_only_trusted_origins_witness :
  processFetching Web3.keccak256 (serving "https://example.org/Storage.sol" STORAGE_SOL)
                  [] "browser/1_Storage.sol"
                  ["https://example.org/Storage.sol"; "dweb:/ipfs/QmStorage"]
                  STORAGE_HASH
    = (inr None, []).
Proof.
  apply (fetch_only_trusted_origins Web3.keccak256
           (serving "https://example.org/Storage.sol" STORAGE_SOL) []
           "browser/1_Storage.sol"
           ["https://example.org/Storage.sol"; "dweb:/ipfs/QmStorage"]
           STORAGE_HASH); reflexivity.
Defined.

(** C3, counterexample. A declared path with a leading blank neither matches
    the GitHub pattern nor starts with the package scope, yet a request is
    made and content comes back. *)
Lemma blank_before_scope_is_fetched :
  GITHUB_REGEX_test (" " +:+ OZ_PATH) = false /\
  startsWith (" " +:+ OZ_PATH) OPENZEPPELIN_SCOPE = false /\
  processFetching Web3.keccak256 (serving OZ_GATEWAY_URL STORAGE_SOL)
                  [] (" " +:+ OZ_PATH) OZ_URLS STORAGE_HASH
    = (inr (Some STORAGE_SOL), [OZ_GATEWAY_URL]).
Proof. repeat split; vm_compute; reflexivity. Qed.


(** C9, witness. Two sources with the hash of one text, the second with
    inline content that is empty: the first is served by the gateway, the
    second takes it from the index. *)
Lemma fetched_content_is_reused_witness :
  let e1 := (OZ_PATH, mkSourceInfo None STORAGE_HASH (Some OZ_URLS)) in
  let e2 := ("contracts/Copy.sol", mkSourceInfo (Some "") STORAGE_HASH (Some OZ_URLS)) in
  let transport := serving OZ_GATEWAY_URL STORAGE_SOL in
  let st1 := step Web3.keccak256 transport (initial Web3.keccak256 [] []) e1 in
  let final := rearrangeSources Web3.keccak256 transport [e1; e2] [] [] in
  exists r file,
    hash2file st1 !! Some STORAGE_HASH = Some r /\
    heap st1 !! r = Some file /\ content file = Some STORAGE_SOL /\
    classify final OZ_PATH = Some (Found file) /\
    own (foundSources final) !! "contracts/Copy.sol" = Some r /\
    classify final "contracts/Copy.sol" = Some (Found file) /\
    requests (step Web3.keccak256 transport st1 e2) = requests st1.
Proof.
  apply (fetched_content_is_reused Web3.keccak256
           (serving OZ_GATEWAY_URL STORAGE_SOL) []
           OZ_PATH (mkSourceInfo None STORAGE_HASH (Some OZ_URLS)) []
           "contracts/Copy.sol" (mkSourceInfo (Some "") STORAGE_HASH (Some OZ_URLS)) []
           [] [] OZ_URLS OZ_GATEWAY_URL (mkResponse 200 (inr STORAGE_SOL))
           STORAGE_SOL).
  - apply NoDup_cons. split; [|apply NoDup_singleton].
    intros H. apply list_elem_of_singleton in H. discriminate H.
  - discriminate.
  - reflexivity.
  - intros r Hr. vm_compute in Hr. discriminate Hr.
  - reflexivity.
  - reflexivity.
  - vm_compute. reflexivity.
  - reflexivity.
  - reflexivity.
  - vm_compute. reflexivity.
  - discriminate.
  - reflexivity.
  - reflexivity.
  - vm_compute. reflexivity.
Defined.

(** C9, counterexample. After a successful fetch for a hash, a later source
    that declares the same hash and carries other inline content is
    classified Invalid. *)
Lemma later_inline_source_is_invalid :
  let e1 := (OZ_PATH, mkSourceInfo None STORAGE_HASH (Some OZ_URLS)) in
  let e2 := ("contracts/Copy.sol",
             mkSourceInfo (Some "contract Other {}") STORAGE_HASH None) in
  let transport := serving OZ_GATEWAY_URL STORAGE_SOL in
  let final := rearrangeSources Web3.keccak256 transport [e1; e2] [] [] in
  thrown final = None /\
  classify final OZ_PATH = Some (Found (mkPathContent (Some STORAGE_SOL) None)) /\
  requests final = [OZ_GATEWAY_URL] /\
  (exists r, hash2file final !! Some STORAGE_HASH = Some r /\
             heap final !! r = Some (mkPathContent (Some STORAGE_SOL) None)) /\
  keccak256_of (snd e2) = keccak256_of (snd e1) /\
  classify final "contracts/Copy.sol" = Some (Invalid HASH_MISMATCH_MSG).
Proof.
  repeat split; try (vm_compute; reflexivity).
  exists 0. split; vm_compute; reflexivity.
Qed.



(** C6, counterexample. A batch of two metadata documents, the first
    declaring a source with the hash of the text of the second: both are
    recognized as metadata, the index of the pass has an entry for the second
    document, and the check returns it as the source of the first. *)
Lemma metadata_document_in_index :
  let files := [mkPathBuffer (bytes APP_TEXT) (Some "app/metadata.json");
                mkPathBuffer (bytes LIB_TEXT) (Some "lib/metadata.json")] in
  let parsedFiles := [mkPathContent (Some APP_TEXT) (Some "app/metadata.json");
                      mkPathContent (Some LIB_TEXT) (Some "lib/metadata.json")] in
  findMetadataFiles parse parsedFiles = inr [APP_JSON; LIB_JSON] /\
  hash2file (initial Web3.keccak256 parsedFiles []) !! Web3.keccak256 LIB_TEXT
    = Some 1 /\
  match checkFiles Web3.keccak256 offline parse join no_archive extract clock
                   toString 2 files [] with
  | Some (Returned (checkedContract :: _, _)) =>
      metadata checkedContract = APP_JSON /\
      own (solidity checkedContract) !! "App.sol"
        = Some (mkPathContent (Some LIB_TEXT) (Some "lib/metadata.json"))
  | _ => False
  end.
Proof.
  split; [vm_compute; reflexivity|]. split; [vm_compute; reflexivity|].
  vm_compute. split; reflexivity.
Qed.

(** C8, witness. An archive that holds a file and an archive. *)
Lemma archives_expand_transitively_witness :
  let files := [mkPathBuffer OUTER (Some "bundle.zip")] in
  exists fuel inputFiles,
    findInputFiles join nested_archive extract clock fuel files
      = Some (inr inputFiles) /\
    (forall file,
       file ∈ inputFiles <->
       exists top, top ∈ files /\ expands nested_archive extract top file) /\
    Forall (fun file =>
              isZip nested_archive (buffer file) = false /\
              exists top, top ∈ files /\ buffer_path file = buffer_path top)
           inputFiles.
Proof.
  apply (archives_expand_transitively join (option tree) nested_archive extract
           clock 2 [mkPathBuffer OUTER (Some "bundle.zip")]).
  constructor; [|constructor]. right. exists [README; INNER].
  split; [vm_compute; reflexivity|].
  constructor; [left; vm_compute; reflexivity|]. constructor; [|constructor].
  right. exists [DEEP]. split; [vm_compute; reflexivity|].
  constructor; [vm_compute; reflexivity|constructor].
Defined.

(** C8, counterexample. The archive [OUTER] holds the archive [INNER]: the
    file inside [INNER] is in the result, [INNER] is not. *)
Lemma nested_archive_is_expanded :
  archive_entries nested_archive extract OUTER = Some [README; INNER] /\
  archive_entries nested_archive extract INNER = Some [DEEP] /\
  findInputFiles join nested_archive extract clock 4
    [mkPathBuffer OUTER (Some "bundle.zip")]
    = Some (inr [mkPathBuffer README (Some "bundle.zip");
                 mkPathBuffer DEEP (Some "bundle.zip")]).
Proof. repeat split; vm_compute; reflexivity. Qed.

(** An archive without entries: the expansion of the batch throws. *)
Example hollow_archive_sample :
  findInputFiles join nested_archive extract clock 4
    [mkPathBuffer README (Some "README.md");
     mkPathBuffer HOLLOW (Some "empty.zip")]
  = Some (inl (Error "Encountered a nonexistent path: tmp-unzipped-1600000000000")).
Proof. vm_compute. reflexivity. Qed.

(** C7. A text that [isMetadata] accepts and that has no [settings]: it is
    recognized as metadata, and the scan throws a [TypeError] instead of
    returning or reporting that no metadata was found. *)
Theorem scan_throws_without_settings :
  extractMetadataFromString parse BARE_TEXT = Some BARE_JSON /\
  isMetadata BARE_JSON = inr true /\
  findMetadataFiles parse
    [mkPathContent (Some BARE_TEXT) (Some "metadata.json");
     mkPathContent (Some STORAGE_SOL) (Some "Storage.sol")]
    = inl TypeError.
Proof. repeat split; vm_compute; reflexivity. Qed.

(** C5. A batch in which a metadata document is recognized and which makes
    the whole check throw: the recognized document has no [settings]. *)
Theorem check_throws_with_metadata_recognized :
  metadataOf parse BARE_TEXT = Some BARE_JSON /\
  checkFiles Web3.keccak256 offline parse join no_archive extract clock toString 2
    [mkPathBuffer (bytes BARE_TEXT) (Some "metadata.json");
     mkPathBuffer (bytes STORAGE_SOL) (Some "Storage.sol")] []
    = Some (Threw TypeError).
Proof. split; vm_compute; reflexivity. Qed.

(** ** Further properties on sample inputs *)


(** X3, witness. A source file named [__proto__] and another one, neither in
    the batch: when the pass has returned, the second is classified and the
    first is not. *)
Lemma declared_iff_classified_witness :
  let sources := [("__proto__", mkSourceInfo None STORAGE_HASH None);
                  ("Storage.sol", mkSourceInfo None STORAGE_HASH None)] in
  let final := rearrangeSources Web3.keccak256 offline sources [] [] in
  is_Some (classify final "Storage.sol") /\ ~ is_Some (classify final "__proto__").
Proof.
  assert (Hnd : NoDup [("__proto__", mkSourceInfo None STORAGE_HASH None);
                       ("Storage.sol", mkSourceInfo None STORAGE_HASH None)].*1).
  { apply NoDup_cons. split; [|apply NoDup_singleton].
    intros H. apply list_elem_of_singleton in H. discriminate H. }
  split.
  - apply (declared_iff_classified Web3.keccak256 offline _ [] [] "Storage.sol" Hnd
             eq_refl).
    split; [apply list_elem_of_further, list_elem_of_here|discriminate].
  - intros H.
    apply (declared_iff_classified Web3.keccak256 offline _ [] [] "__proto__" Hnd
             eq_refl) in H as [_ H].
    by apply H.
Defined.


(** X6, witness. A GitHub path. *)
Lemma github_path_rewriting_witness :
  exists scheme c rest,
    (scheme = "http" \/ scheme = "https") /\
    is_line_terminator c = false /\
    "https://github.com/ethereum/sourcify/Storage.sol"
      = scheme +:+ "://github" +:+ String c ("com" +:+ rest) /\
    replace "github" "raw.githubusercontent"
            "https://github.com/ethereum/sourcify/Storage.sol"
      = scheme +:+ "://raw.githubusercontent" +:+ String c ("com" +:+ rest).
Proof.
  apply (github_path_rewriting "https://github.com/ethereum/sourcify/Storage.sol").
  reflexivity.
Defined.

(** X7, witness. A batch of one file and a pass that declares nothing. *)
Lemma files_after_a_pass_witness :
  let f := mkPathContent (Some STORAGE_SOL) (Some "Storage.sol") in
  exists f',
    heap (rearrangeSources Web3.keccak256 offline [] [f] []) !! 0 = Some f' /\
    path f' = path f /\
    (f' = f \/
     (content f = Some "" /\
      exists c, content f' = Some c /\ c <> "" /\
                Web3.keccak256 c = Web3.keccak256 "")).
Proof.
  apply (files_after_a_pass Web3.keccak256 offline []
           [mkPathContent (Some STORAGE_SOL) (Some "Storage.sol")] [] 0).
  reflexivity.
Defined.


(** X9, witness. A metadata document and a source file. *)
Lemma findMetadataFiles_result_witness :
  let files := [mkPathContent (Some LIB_TEXT) (Some "metadata.json");
                mkPathContent (Some STORAGE_SOL) (Some "Storage.sol")] in
  [LIB_JSON] <> [] /\
  [LIB_JSON] = omap (fun file => content file ≫= metadataOf parse) files /\
  Forall (fun m => isMetadata m = inr true /\ compilationTargetKeys m = inr tt)
         [LIB_JSON].
Proof.
  apply (findMetadataFiles_result parse
           [mkPathContent (Some LIB_TEXT) (Some "metadata.json");
            mkPathContent (Some STORAGE_SOL) (Some "Storage.sol")] [LIB_JSON]).
  vm_compute. reflexivity.
Defined.

(** X10, witness. Two files, neither an archive. *)
Lemma findInputFiles_without_archives_witness :
  findInputFiles join nested_archive extract clock 2
    [mkPathBuffer (bytes LIB_TEXT) (Some "metadata.json");
     mkPathBuffer (bytes STORAGE_SOL) (Some "Storage.sol")]
  = Some (inr [mkPathBuffer (bytes LIB_TEXT) (Some "metadata.json");
               mkPathBuffer (bytes STORAGE_SOL) (Some "Storage.sol")]).
Proof.
  apply (findInputFiles_without_archives join (option tree) nested_archive
           extract clock 2
           [mkPathBuffer (bytes LIB_TEXT) (Some "metadata.json");
            mkPathBuffer (bytes STORAGE_SOL) (Some "Storage.sol")]).
  - repeat constructor.
  - simpl. lia.
Defined.

(** X11, witness. A metadata document that declares no source, and a file. *)
Lemma checkInputFiles_contracts_witness :
  let inputFiles := [mkPathBuffer (bytes LIB_TEXT) (Some "metadata.json");
                     mkPathBuffer (bytes STORAGE_SOL) (Some "Storage.sol")] in
  let cs := [mkCheckedContract LIB_JSON (mkDictionary ∅ None)
                               (mkDictionary ∅ None) ∅] in
  findMetadataFiles parse
    (List.map (fun pathBuffer =>
                 mkPathContent (Some (toString (buffer pathBuffer)))
                               (buffer_path pathBuffer)) inputFiles)
    = inr (metadata <$> cs) /\
  cs <> [] /\
  exists new, @nil string = [] ++ new.
Proof.
  apply (checkInputFiles_contracts Web3.keccak256 offline parse toString
           [mkPathBuffer (bytes LIB_TEXT) (Some "metadata.json");
            mkPathBuffer (bytes STORAGE_SOL) (Some "Storage.sol")] []
           [mkCheckedContract LIB_JSON (mkDictionary ∅ None)
                              (mkDictionary ∅ None) ∅] []).
  vm_compute. reflexivity.
Defined.

(** X12, witness. A document whose second source entry is [null]; the first
    is found in the batch. *)
Lemma null_source_entry_throws_witness :
  rearrangeSources_any Web3.keccak256 offline
    (JObject [("language", JString "Solidity");
              ("sources",
               JObject [("Storage.sol", JObject [("keccak256", JString STORAGE_HASH)]);
                        ("Owner.sol", JNull)])])
    [mkPathContent (Some STORAGE_SOL) (Some "Storage.sol")] []
  = Threw TypeError.
Proof.
  destruct (null_source_entry_throws Web3.keccak256 offline
              (JObject [("language", JString "Solidity");
                        ("sources",
                         JObject [("Storage.sol",
                                   JObject [("keccak256", JString STORAGE_HASH)]);
                                  ("Owner.sol", JNull)])])
              [("Storage.sol", JObject [("keccak256", JString STORAGE_HASH)])]
              "Owner.sol" []
              [mkPathContent (Some STORAGE_SOL) (Some "Storage.sol")] [])
    as [_ H].
  - reflexivity.
  - constructor; [|constructor]. eexists. reflexivity.
  - eapply H. vm_compute. reflexivity.
Defined.
